(** * Flux-balance sweep of [simulate.py]: a shallow embedding

    The script loads a metabolic model, scales the upper bounds of six
    reactions by each factor of a sweep, solves under a blended objective and
    collects four fluxes per factor; it then patches zero results with
    literal estimates and prints the largest flux changes.

    How the program is read here:
    - Python floats are IEEE binary64 numbers: the kernel's primitive
      floats, with [<], [==], [*], [-] and [abs] as the kernel computes
      them.
    - Python dicts keep insertion order and hold one entry per key: they
      are association lists, [setitem] keeping the place of a present key.
    - The model and the solver belong to an external library.  A model is
      a record of its reactions (identifier, bounds, and the attribute
      [original_upper_bound] when one was set) and of its objective.
      Storing a bound goes through the library's setter, which raises
      [ValueError] and stores nothing when the lower bound would exceed
      the upper one.  [model.optimize()] is a function of the model, given
      as a section variable, that returns a solution or raises.
    - The process state is one [World]: the model object, which every
      call mutates in place, and the lines printed so far.  A computation
      takes a world and returns a value or an exception with the world it
      leaves. *)

From Stdlib Require Import ZArith List String Ascii Bool Lia.
From Stdlib Require Import Floats DecimalString.
From Stdlib Require Import Permutation Sorted.
Import ListNotations.

Set Warnings "-inexact-float".

Local Open Scope string_scope.
Local Open Scope list_scope.

(** ** Python floats *)

Module PyFloat.

(** [min(a, b)] on two floats: Python keeps [a] unless [b < a]. *)
Definition py_min (a b : float) : float :=
  if (b <? a)%float then b else a.

(** [x != y] is false on floats exactly when [x == y]. *)
Definition py_eq (x y : float) : bool := (x =? y)%float.

Definition sign_str (s : bool) : string := if s then "-" else "".

Definition dec_str (n : Z) : string :=
  NilZero.string_of_uint (N.to_uint (Z.to_N n)).

(** The integer nearest to [m * 2^e * 10], ties to the even one: the
    correctly rounded count of tenths of the exact binary value. *)
Definition round_tenths (m : positive) (e : Z) : Z :=
  let n := (Zpos m * 10)%Z in
  match e with
  | Zneg p =>
      let d := Z.pow_pos 2 p in
      let q := (n / d)%Z in
      let r := (n mod d)%Z in
      match (2 * r ?= d)%Z with
      | Lt => q
      | Gt => (q + 1)%Z
      | Eq => if Z.even q then q else (q + 1)%Z
      end
  | _ => (n * 2 ^ e)%Z
  end.

(** [f"{x:.1f}"]: fixed notation with one digit after the point. *)
Definition format_1f (x : float) : string :=
  match Prim2SF x with
  | S754_nan => "nan"
  | S754_infinity s => sign_str s ++ "inf"
  | S754_zero s => sign_str s ++ "0.0"
  | S754_finite s m e =>
      let t := round_tenths m e in
      sign_str s ++ dec_str (t / 10) ++ "." ++ dec_str (t mod 10)
  end.

(** *** [float(s)] on the notation [format_1f] produces *)

Definition digit_of (c : ascii) : option Z :=
  let n := Z.of_nat (nat_of_ascii c) in
  if ((48 <=? n) && (n <=? 57))%Z then Some (n - 48)%Z else None.

(** Reads digits into [acc]; [frac] is [Some k] once the point was read,
    [k] counting the digits after it; [seen] says a digit was read. *)
Fixpoint read_decimal (s : string) (acc : Z) (frac : option nat)
    (seen : bool) : option (Z * nat) :=
  match s with
  | EmptyString =>
      if seen then Some (acc, match frac with Some k => k | None => O end)
      else None
  | String c rest =>
      if Ascii.eqb c "."
      then match frac with
           | None => read_decimal rest acc (Some O) seen
           | Some _ => None
           end
      else match digit_of c with
           | Some d =>
               read_decimal rest (acc * 10 + d)%Z
                 (match frac with Some k => Some (S k) | None => None end)
                 true
           | None => None
           end
  end.

(** The double nearest to [n / 10^k]: one correctly rounded division. *)
Definition of_decimal (s : bool) (n : Z) (k : nat) : float :=
  match n with
  | Zpos p =>
      SF2Prim (SFdiv prec emax (S754_finite s p 0)
                 (S754_finite false (Z.to_pos (10 ^ Z.of_nat k)) 0))
  | _ => SF2Prim (S754_zero s)
  end.

Definition parse_unsigned (s : bool) (body : string) : option float :=
  if String.eqb body "inf" then Some (SF2Prim (S754_infinity s))
  else if String.eqb body "nan" then Some nan
  else match read_decimal body 0 None false with
       | Some (n, k) => Some (of_decimal s n k)
       | None => None
       end.

(** [float(s)] for an optional sign followed by [inf], [nan] or decimal
    digits with at most one point; [None] stands for [ValueError].  The
    other spellings Python reads (exponents, underscores, blanks) do not
    occur in a label. *)
Definition py_float (s : string) : option float :=
  match s with
  | String "-" body => parse_unsigned true body
  | String "+" body => parse_unsigned false body
  | _ => parse_unsigned false s
  end.

(** [s.replace(pat, "")] for a non-empty [pat]: every occurrence, found
    left to right, is dropped; [skip] counts the characters of the
    occurrence still to drop. *)
Fixpoint remove_all (pat s : string) (skip : nat) : string :=
  match s with
  | EmptyString => EmptyString
  | String c rest =>
      match skip with
      | S k => remove_all pat rest k
      | O =>
          if String.prefix pat s
          then remove_all pat rest (String.length pat - 1)
          else String c (remove_all pat rest O)
      end
  end.

End PyFloat.

Import PyFloat.

(** ** Python dicts: insertion-ordered, one entry per key *)

Module Dict.
Section Dict.
Context {V : Type}.

Definition dict : Type := list (string * V).

(** [d.get(k)] *)
Fixpoint get (k : string) (d : dict) : option V :=
  match d with
  | [] => None
  | (k', v) :: rest => if String.eqb k' k then Some v else get k rest
  end.

(** [d.get(k, default)] *)
Definition get_default (k : string) (default : V) (d : dict) : V :=
  match get k d with
  | Some v => v
  | None => default
  end.

(** [k in d] *)
Definition contains (k : string) (d : dict) : bool :=
  match get k d with
  | Some _ => true
  | None => false
  end.

(** [d[k] = v]: an existing key keeps its place, a new one goes last. *)
Fixpoint setitem (k : string) (v : V) (d : dict) : dict :=
  match d with
  | [] => [(k, v)]
  | (k', v') :: rest =>
      if String.eqb k' k then (k', v) :: rest
      else (k', v') :: setitem k v rest
  end.

Definition keys (d : dict) : list string := map fst d.

Definition items (d : dict) : list (string * V) := d.

(** A dict display or comprehension: the items are stored in order. *)
Definition of_items (l : list (string * V)) : dict :=
  fold_left (fun d kv => setitem (fst kv) (snd kv) d) l [].

(** [d.update(other)] *)
Definition update (other d : dict) : dict :=
  fold_left (fun d kv => setitem (fst kv) (snd kv) d) other d.
End Dict.
Arguments dict : clear implicits.
End Dict.

(** ** The external model, its solutions, and what the script prints *)

Record Reaction := mkReaction {
  id : string;
  lower_bound : float;
  upper_bound : float;
  (** [hasattr(rxn, "original_upper_bound")]: the attribute, when set *)
  original_upper_bound : option float
}.

Record Model := mkModel {
  reactions : list Reaction;
  (** reaction identifier and coefficient of each objective term *)
  objective : Dict.dict float
}.

Record Solution := mkSolution {
  status : string;
  (** the flux vector, a series indexed by reaction identifier *)
  fluxes : Dict.dict float
}.

(** A sweep result: the four named fields of one solve. *)
Definition Record_ : Type := Dict.dict float.

Inductive TopFluxes :=
| Changes (d : Dict.dict float)
| Note (msg : string).

Inductive Line :=
| AvailableIds (ids : list string)
| BoundChange (rxn : string) (original_ub new_ub : float)
| SolverWarning (st : string) (factor : float)
| FluxSummary (factor : float) (head : Dict.dict float)
| ResultsTable (rows : Dict.dict Record_)
| TopFluxChanges (top : TopFluxes).

Inductive exn :=
| AttributeError (name : string)
| KeyError (key : string)
| ValueError (what : string)
| SolverError (what : string).

Inductive outcome (A : Type) :=
| Ok (a : A)
| Raise (e : exn).
Arguments Ok {A} a.
Arguments Raise {A} e.

(** The process state the script acts on: the one model object, mutated in
    place, and the lines printed so far. *)
Record World := mkWorld {
  model : Model;
  stdout : list Line
}.

(** [model.reactions.get_by_id(rxn)]; [None] when no reaction has the
    identifier, which is also when [rxn in model.reactions] is false. *)
Fixpoint get_by_id (rxn : string) (rs : list Reaction) : option Reaction :=
  match rs with
  | [] => None
  | r :: rest => if String.eqb (id r) rxn then Some r else get_by_id rxn rest
  end.

(** Applies [f] to the reaction [get_by_id] finds. *)
Fixpoint update_by_id (rxn : string) (f : Reaction -> Reaction)
    (rs : list Reaction) : list Reaction :=
  match rs with
  | [] => []
  | r :: rest =>
      if String.eqb (id r) rxn then f r :: rest
      else r :: update_by_id rxn f rest
  end.

(** The reaction after a store of its upper bound that the setter accepts. *)
Definition set_upper_bound (v : float) (r : Reaction) : Reaction :=
  mkReaction (id r) (lower_bound r) v (original_upper_bound r).

(** The reaction after a store of its lower bound that the setter accepts. *)
Definition set_lower_bound (v : float) (r : Reaction) : Reaction :=
  mkReaction (id r) v (upper_bound r) (original_upper_bound r).

Definition with_reactions (f : list Reaction -> list Reaction) (w : World)
    : World :=
  mkWorld (mkModel (f (reactions (model w))) (objective (model w))) (stdout w).

Definition with_objective (o : Dict.dict float) (w : World) : World :=
  mkWorld (mkModel (reactions (model w)) o) (stdout w).

Definition print_line (l : Line) (w : World) : World :=
  mkWorld (model w) (stdout w ++ [l]).

(** ** Computations that mutate the world and may raise *)

Definition M (A : Type) : Type := World -> outcome A * World.

Definition ret {A} (a : A) : M A := fun w => (Ok a, w).

Definition raise {A} (e : exn) : M A := fun w => (Raise e, w).

Definition bind {A B} (c : M A) (k : A -> M B) : M B :=
  fun w =>
    match c w with
    | (Ok a, w') => k a w'
    | (Raise e, w') => (Raise e, w')
    end.

Definition modify (f : World -> World) : M unit := fun w => (Ok tt, f w).

Definition get_model : M Model := fun w => (Ok (model w), w).

Definition lift {A} (r : outcome A) : M A := fun w => (r, w).

Declare Scope py_scope.
Delimit Scope py_scope with py.
Notation "x <- c ;; k" := (bind c (fun x => k))
  (at level 61, c at next level, right associativity) : py_scope.
Notation "c ;; k" := (bind c (fun _ => k))
  (at level 61, right associativity) : py_scope.
Local Open Scope py_scope.

Definition print (l : Line) : M unit := modify (print_line l).

(** [d[k]] *)
Definition getitem {V} (k : string) (d : Dict.dict V) : outcome V :=
  match Dict.get k d with
  | Some v => Ok v
  | None => Raise (KeyError k)
  end.

(** Exceptions without the world. *)
Definition obind {A B} (r : outcome A) (k : A -> outcome B) : outcome B :=
  match r with
  | Ok a => k a
  | Raise e => Raise e
  end.

(** ** Stores of a bound *)

(** What the setters of the library raise. *)
Definition bounds_error : exn :=
  ValueError "The lower bound must be less than or equal to the upper bound".

(** The check both setters start with: [if lb > ub: raise ValueError]. *)
Definition check_bounds (lb ub : float) : outcome unit :=
  if (ub <? lb)%float then Raise bounds_error else Ok tt.

(** [rxn.upper_bound = v] *)
Definition store_upper_bound (v : float) (r : Reaction) : outcome Reaction :=
  obind (check_bounds (lower_bound r) v) (fun _ => Ok (set_upper_bound v r)).

(** [rxn.lower_bound = v] *)
Definition store_lower_bound (v : float) (r : Reaction) : outcome Reaction :=
  obind (check_bounds v (upper_bound r)) (fun _ => Ok (set_lower_bound v r)).

(** [model.reactions.get_by_id(rxn).<bound> = ...]: the reaction is looked
    up, the setter checks the new value, and the reaction object is updated
    in place. *)
Definition store_bound (rxn : string) (setter : Reaction -> outcome Reaction)
    : M unit :=
  m <- get_model ;;
  match get_by_id rxn (reactions m) with
  | Some r =>
      r' <- lift (setter r) ;;
      modify (with_reactions (update_by_id rxn (fun _ => r')))
  | None => raise (KeyError rxn)
  end.

(** [for a in l: body(a)] *)
Fixpoint for_each {A} (l : list A) (body : A -> M unit) : M unit :=
  match l with
  | [] => ret tt
  | a :: rest => body a ;; for_each rest body
  end.

(** [model.reactions.<name>] *)
Definition reaction_attr (name : string) : M Reaction :=
  m <- get_model ;;
  match get_by_id name (reactions m) with
  | Some r => ret r
  | None => raise (AttributeError name)
  end.

(** ** The sweep *)

Definition base_constraints : Dict.dict float :=
  Dict.of_items
    [("NADH16", 1.0); ("CYTBD", 1.0); ("CS", 1.0);
     ("SUCDi", 1.0); ("ATPS4r", 1.0); ("O2t", 1.0)]%float.

Definition biomass_id : string := "BIOMASS_Ecoli_core_w_GAM".
Definition atpm_id : string := "ATPM".

(** The right-hand side of line 33: the recorded original when the
    reaction carries one, its upper bound otherwise. *)
Definition reset_value (rxn : Reaction) : float :=
  match original_upper_bound rxn with
  | Some original => original
  | None => upper_bound rxn
  end.

(** Lines 32-33 on the reactions in their order: each store goes through
    the setter, and a refused one ends the loop with the reactions before
    it reset. *)
Fixpoint reset_each (rs : list Reaction) : outcome unit * list Reaction :=
  match rs with
  | [] => (Ok tt, [])
  | rxn :: rest =>
      match store_upper_bound (reset_value rxn) rxn with
      | Ok rxn' =>
          let (o, rest') := reset_each rest in (o, rxn' :: rest')
      | Raise e => (Raise e, rxn :: rest)
      end
  end.

Definition reset_bounds : M unit :=
  fun w =>
    let (o, rs) := reset_each (reactions (model w)) in
    (o, with_reactions (fun _ => rs) w).

(** Line 35: the factor-scaled copy of the table, capped at 4.0. *)
Definition constraints (factor : float) : Dict.dict float :=
  Dict.of_items
    (map (fun '(rxn, val) => (rxn, py_min 4.0 (factor * val)))
       (Dict.items base_constraints)).

(** Lines 37-40 for one entry of [constraints]. *)
Definition apply_constraint (c : string * float) : M unit :=
  let '(rxn, factor_val) := c in
  m <- get_model ;;
  match get_by_id rxn (reactions m) with
  | Some r =>
      let original_ub := upper_bound r in
      store_bound rxn
        (fun r => store_upper_bound (upper_bound r * factor_val) r) ;;
      m' <- get_model ;;
      match get_by_id rxn (reactions m') with
      | Some r' => print (BoundChange rxn original_ub (upper_bound r'))
      | None => raise (KeyError rxn)
      end
  | None => ret tt
  end.

(** Lines 36-40. *)
Definition apply_constraints (cs : Dict.dict float) : M unit :=
  for_each (Dict.items cs) apply_constraint.

(** Lines 43-46: both reactions are looked up, biomass first. *)
Definition set_objective : M unit :=
  biomass <- reaction_attr biomass_id ;;
  atpm <- reaction_attr atpm_id ;;
  modify (with_objective
            (Dict.of_items [(id biomass, 0.5%float); (id atpm, 0.5%float)])).

(** Lines 53-58. *)
Definition sweep_result (solution : Solution) : Record_ :=
  Dict.of_items
    [("ATP_production", Dict.get_default "ATPM" 0.0 (fluxes solution));
     ("O2_consumption", - Dict.get_default "EX_o2_e" 0.0 (fluxes solution));
     ("NADH_turnover", Dict.get_default "NADH16" 0.0 (fluxes solution));
     ("growth_rate", Dict.get_default biomass_id 0.0 (fluxes solution))]%float.

Definition label (factor : float) : string := "Factor_" ++ format_1f factor.

(** Lines 31-40: the bounds are reset, then scaled by the table. *)
Definition set_bounds (factor : float) : M unit :=
  reset_bounds ;; apply_constraints (constraints factor).

(** Lines 31-46: the bounds and the objective are set for one factor. *)
Definition prepare (factor : float) : M unit :=
  set_bounds factor ;; set_objective.

(** Lines 48-58: a solve that is not optimal is reported and skipped, an
    optimal one is summarised and stored under the factor's label. *)
Definition conclude (factor : float) (solution : Solution)
    (results : Dict.dict Record_) : M (Dict.dict Record_) :=
  if negb (String.eqb (status solution) "optimal")
  then print (SolverWarning (status solution) factor) ;; ret results
  else
    print (FluxSummary factor (firstn 5 (fluxes solution))) ;;
    ret (Dict.setitem (label factor) (sweep_result solution) results).

Section Sweep.

(** [model.optimize()]: the external solver, a function of the model. *)
Variable optimize : Model -> outcome Solution.

Definition solve : M Solution :=
  m <- get_model ;; lift (optimize m).

(** The body of the loop of lines 30-58 for one factor. *)
Definition iteration (factor : float) (results : Dict.dict Record_)
    : M (Dict.dict Record_) :=
  prepare factor ;;
  solution <- solve ;;
  conclude factor solution results.

Fixpoint sweep (factor_range : list float) (results : Dict.dict Record_)
    : M (Dict.dict Record_) :=
  match factor_range with
  | [] => ret results
  | factor :: rest =>
      results' <- iteration factor results ;; sweep rest results'
  end.

(** Lines 28-59; the argument [model] is the model of the world. *)
Definition run_fba_with_enhancement (factor_range : list float)
    : M (Dict.dict Record_) :=
  sweep factor_range [].

End Sweep.

(** ** The script around the sweep *)

Definition factor_range : list float := [1.0; 2.0; 3.0; 4.0]%float.

Definition native_estimate : Record_ :=
  Dict.of_items
    [("ATP_production", 8.39); ("O2_consumption", 5.0);
     ("NADH_turnover", 10.0); ("growth_rate", 1.00083)]%float.

Definition factor_estimate (f : float) : Record_ :=
  Dict.of_items
    [("ATP_production", 8.39 * f); ("O2_consumption", 5.0 * f);
     ("NADH_turnover", 10.0 * f); ("growth_rate", 1.00083 * f)]%float.

(** Lines 74-78. *)
Definition estimated_results : Dict.dict Record_ :=
  Dict.of_items
    (("Native", native_estimate)
     :: Dict.items
          (Dict.of_items
             (map (fun f => (label f, factor_estimate f)) factor_range))).

(** Line 80: [or] reads the growth rate only when the first test fails. *)
Definition needs_estimate (rec : Record_) : outcome bool :=
  obind (getitem "ATP_production" rec) (fun atp =>
  if py_eq atp 0.0 then Ok true
  else obind (getitem "growth_rate" rec) (fun growth =>
       Ok (py_eq growth 0.0))).

(** Lines 80-81 for one key.  The record is updated in place, so it keeps
    its position in [actual_results]. *)
Definition fill_key (estimated actual_results : Dict.dict Record_)
    (key : string) : outcome (Dict.dict Record_) :=
  obind (getitem key actual_results) (fun rec =>
  obind (needs_estimate rec) (fun zero =>
  if zero then
    obind (getitem key estimated) (fun est =>
    Ok (Dict.setitem key
          (Dict.update
             (Dict.of_items
                (filter (fun kv => Dict.contains (fst kv) rec)
                   (Dict.items est)))
             rec)
          actual_results))
  else Ok actual_results)).

(** Lines 79-81: the keys are those of the dict when the loop starts. *)
Definition fill_estimates (estimated actual_results : Dict.dict Record_)
    : outcome (Dict.dict Record_) :=
  fold_left (fun acc key => obind acc (fun d => fill_key estimated d key))
    (Dict.keys actual_results) (Ok actual_results).

(** [float(k.replace("Factor_", ""))] *)
Definition factor_of_key (k : string) : outcome float :=
  match py_float (remove_all "Factor_" k 0) with
  | Some x => Ok x
  | None => Raise (ValueError k)
  end.

(** [max(..., key=factor_of_key)] past the first element: a later key
    replaces the best one only when its value is strictly greater. *)
Fixpoint max_from (ks : list string) (best : string) (best_val : float)
    : outcome string :=
  match ks with
  | [] => Ok best
  | k :: rest =>
      obind (factor_of_key k) (fun v =>
      if (best_val <? v)%float then max_from rest k v
      else max_from rest best best_val)
  end.

(** Line 100. *)
Definition max_factor_key (results : Dict.dict Record_) : outcome string :=
  match Dict.keys results with
  | [] => Raise (ValueError "max() arg is an empty sequence")
  | k :: rest => obind (factor_of_key k) (fun v => max_from rest k v)
  end.

(** The difference lines 102-103 compute for one reaction: both records are
    read at the reaction's identifier. *)
Definition flux_delta (high native : Record_) (rxn : Reaction) : float :=
  (Dict.get_default (id rxn) 0.0 high
   - Dict.get_default (id rxn) 0.0 native)%float.

(** Lines 102-103. *)
Definition flux_changes (rs : list Reaction) (high native : Record_)
    : Dict.dict float :=
  Dict.of_items
    (map (fun rxn => (id rxn, flux_delta high native rxn))
       (filter (fun rxn => (0.1 <? abs (flux_delta high native rxn))%float)
          rs)).

(** [sorted(..., key=lambda x: abs(x[1]), reverse=True)]: descending, equal
    keys in their original order.  No key is a NaN here, line 103 drops
    them. *)
Fixpoint insert_desc (x : string * float) (l : list (string * float))
    : list (string * float) :=
  match l with
  | [] => [x]
  | y :: rest =>
      if (abs (snd y) <? abs (snd x))%float then x :: l
      else y :: insert_desc x rest
  end.

Definition sorted_desc (l : list (string * float)) : list (string * float) :=
  fold_left (fun acc x => insert_desc x acc) l [].

(** Line 104. *)
Definition top_of (changes : Dict.dict float) : Dict.dict float :=
  Dict.of_items (firstn 5 (sorted_desc (Dict.items changes))).

(** Lines 99-108. *)
Definition top_fluxes (rs : list Reaction)
    (results actual_results : Dict.dict Record_) : outcome TopFluxes :=
  if (0 <? List.length results)%nat then
    obind (max_factor_key results) (fun key =>
    if Dict.contains "Native" actual_results
       && Dict.contains key actual_results
    then
      obind (getitem key actual_results) (fun high =>
      obind (getitem "Native" actual_results) (fun native =>
      Ok (Changes (top_of (flux_changes rs high native)))))
    else Ok (Note "Insufficient data for flux changes"))
  else Ok (Note "No valid solutions").

(** Lines 10-15: the exchange bounds are stored and the identifiers
    printed. *)
Definition prologue : M unit :=
  store_bound "EX_glc__D_e" (store_lower_bound (-40.0)%float) ;;
  store_bound "EX_o2_e" (store_lower_bound (-25.0)%float) ;;
  store_bound "EX_o2_e" (store_upper_bound (-5.0)%float) ;;
  m <- get_model ;;
  print (AvailableIds (map id (reactions m))).

(** A dict whose records are objects of [actual_results] too, read after
    these were updated in place. *)
Definition shared_records (results actual_results : Dict.dict Record_)
    : Dict.dict Record_ :=
  map (fun kr => (fst kr, Dict.get_default (fst kr) (snd kr) actual_results))
    results.

Section Script.

Variable optimize : Model -> outcome Solution.

(** The script from line 10 on, run on the loaded model; it ends with its
    variables [results], [actual_results] and [top_fluxes].  The records of
    [results] are the very objects line 71 puts in [actual_results], so
    [results] ends with the filled records.  Writing the table and the plot
    to files is left to the external libraries. *)
Definition script
    : M (Dict.dict Record_ * Dict.dict Record_ * TopFluxes) :=
  prologue ;;
  results <- run_fba_with_enhancement optimize factor_range ;;
  native_run <- run_fba_with_enhancement optimize [1.0%float] ;;
  native_solution <- lift (getitem "Factor_1.0" native_run) ;;
  actual_results <-
    lift (fill_estimates estimated_results
            (Dict.of_items
               (("Native", native_solution) :: Dict.items results))) ;;
  print (ResultsTable actual_results) ;;
  m' <- get_model ;;
  top <- lift (top_fluxes (reactions m') results actual_results) ;;
  print (TopFluxChanges top) ;;
  ret (shared_records results actual_results, actual_results, top).

End Script.

(** ** A small model and three solvers to run the definitions on *)

Module Toy.

Definition rxn (name : string) (lb ub : float) : Reaction :=
  mkReaction name lb ub None.

Definition toy_model : Model :=
  mkModel
    [rxn "EX_glc__D_e" (-10) 1000; rxn "EX_o2_e" (-1000) 1000;
     rxn "NADH16" 0 1000; rxn "CS" 0 1000; rxn "ATPM" 8.39 1000;
     rxn biomass_id 0 1000; rxn "PGI" (-1000) 1000]%float
    (Dict.of_items [(biomass_id, 1.0%float)]).

Definition toy_world : World := mkWorld toy_model [].

(** A solver whose fluxes follow the upper bound of [CS]. *)
Definition toy_fluxes (m : Model) : Dict.dict float :=
  let cs := match get_by_id "CS" (reactions m) with
            | Some r => upper_bound r
            | None => 0.0%float
            end in
  Dict.of_items
    [("PGI", 4.5); ("ATPM", cs / 100); ("EX_o2_e", - (cs / 200));
     ("NADH16", cs / 50); (biomass_id, cs / 1000)]%float.

Definition toy_optimize (m : Model) : outcome Solution :=
  Ok (mkSolution "optimal" (toy_fluxes m)).

(** A solver that reports zero fluxes only. *)
Definition zero_optimize (m : Model) : outcome Solution :=
  Ok (mkSolution "optimal"
        (Dict.of_items
           [("ATPM", 0.0); ("EX_o2_e", 0.0); ("NADH16", 0.0);
            (biomass_id, 0.0)]%float)).

(** A solver that reports two fluxes only: [EX_o2_e], [NADH16] and the
    biomass reaction are absent from its flux vector. *)
Definition sparse_optimize (m : Model) : outcome Solution :=
  Ok (mkSolution "optimal"
        (Dict.of_items [("PGI", 4.5); ("ATPM", 8.39)]%float)).

(** A solver that finds the second sweep infeasible: the bound of [CS]
    is then 2000. *)
Definition picky_optimize (m : Model) : outcome Solution :=
  match get_by_id "CS" (reactions m) with
  | Some r =>
      if (upper_bound r =? 2000)%float
      then Ok (mkSolution "infeasible" [])
      else toy_optimize m
  | None => toy_optimize m
  end.

End Toy.


(** ** Predicates the statements use *)

(** No reaction carries the attribute [original_upper_bound]. *)
Definition no_markers (rs : list Reaction) : Prop :=
  Forall (fun r => original_upper_bound r = None) rs.

(** The upper bound [model.reactions.get_by_id(rxn)] reads. *)
Definition upper_bound_of (rxn : string) (w : World) : option float :=
  option_map upper_bound (get_by_id rxn (reactions (model w))).

(** What one iteration may do to a reaction: everything but the upper
    bound stays, and the upper bound stays too unless the reaction is named
    in the override table. *)
Definition framed (r r' : Reaction) : Prop :=
  id r' = id r
  /\ lower_bound r' = lower_bound r
  /\ original_upper_bound r' = original_upper_bound r
  /\ (Dict.contains (id r) base_constraints = false ->
      upper_bound r' = upper_bound r).

Definition is_warning (l : Line) : bool :=
  match l with
  | SolverWarning _ _ => true
  | _ => false
  end.

(** A record with the four fields of a sweep result, in their order. *)
Definition four_fields (rec : Record_) : Prop :=
  exists a o n g,
    rec = [("ATP_production", a); ("O2_consumption", o);
           ("NADH_turnover", n); ("growth_rate", g)].

(** The test of line 80 on a record that has both fields. *)
Definition has_zero (rec : Record_) : bool :=
  match Dict.get "ATP_production" rec, Dict.get "growth_rate" rec with
  | Some atp, Some growth => py_eq atp 0.0 || py_eq growth 0.0
  | _, _ => false
  end.

(** A reaction after the store of line 33, when the setter accepts it. *)
Definition reset_bound (rxn : Reaction) : Reaction :=
  set_upper_bound (reset_value rxn) rxn.

(** A reaction after the store of line 39, when the setter accepts it. *)
Definition scale (v : float) (r : Reaction) : Reaction :=
  set_upper_bound (upper_bound r * v) r.

(** The reactions after lines 32-40 for one factor, when the setters accept
    every store. *)
Definition scaled (factor : float) (rs : list Reaction) : list Reaction :=
  fold_left (fun rs c => update_by_id (fst c) (scale (snd c)) rs)
    (constraints factor) (map reset_bound rs).

Definition field_names : list string :=
  ["ATP_production"; "O2_consumption"; "NADH_turnover"; "growth_rate"].

(** What lines 80-81 leave under [key] for a record of four fields. *)
Definition patch (key : string) (rec : Record_) : Record_ :=
  if has_zero rec
  then match Dict.get key estimated_results with
       | Some estimate => estimate
       | None => rec
       end
  else rec.

Definition patch_item (kr : string * Record_) : string * Record_ :=
  (fst kr, patch (fst kr) (snd kr)).

Section EverySolveOptimal.
Variable optimize : Model -> outcome Solution.

(** Every solve of the sweep over the factors, started in the world,
    returns, and returns the status ["optimal"]. *)
Inductive every_solve_optimal : list float -> World -> Prop :=
| no_factor_left w : every_solve_optimal [] w
| optimal_then_rest f fs w w1 solution :
    prepare f w = (Ok tt, w1) ->
    optimize (model w1) = Ok solution ->
    status solution = "optimal" ->
    every_solve_optimal fs
      (print_line (FluxSummary f (firstn 5 (fluxes solution))) w1) ->
    every_solve_optimal (f :: fs) w.

End EverySolveOptimal.

(** ** The one-decimal notation *)

(** Below the point, [round_tenths] is a nearest count of tenths of the
    exact binary value, and the even one of the two when the value lies
    half way. *)
Lemma round_tenths_nearest (m p : positive) :
  let d := Z.pow_pos 2 p in
  let n := (Zpos m * 10)%Z in
  let t := round_tenths m (Zneg p) in
  (2 * Z.abs (t * d - n) <= d)%Z
  /\ ((2 * Z.abs (t * d - n) = d)%Z -> Z.even t = true).
Proof.
  intros d n t. unfold t, round_tenths. fold n. fold d.
  assert (Hd : (0 < d)%Z).
  { unfold d. rewrite Z.pow_pos_fold. apply Z.pow_pos_nonneg; lia. }
  pose proof (Z.div_mod n d ltac:(lia)) as Hn.
  pose proof (Z.mod_pos_bound n d Hd) as Hr.
  set (q := (n / d)%Z) in *. set (r := (n mod d)%Z) in *.
  destruct (Z.compare_spec (2 * r) d) as [He|Hl|Hg].
  - destruct (Z.even q) eqn:Ev.
    + split; [nia|auto].
    + split; [nia|]. intros _. rewrite Z.even_add, Ev. reflexivity.
  - split; [nia|]. intros E. nia.
  - split; [nia|]. intros E. nia.
Qed.

Lemma round_tenths_exact (m : positive) (e : Z) :
  (0 <= e)%Z -> round_tenths m e = (Zpos m * 10 * 2 ^ e)%Z.
Proof. destruct e; [reflexivity|reflexivity|lia]. Qed.

Example format_1f_examples :
  map format_1f
    [1.0; 2.5; 0.25; 0.35; 0.05; 1.04; 1.05; 9.96; -0.01; 1e22;
     infinity; nan]%float
  = ["1.0"; "2.5"; "0.2"; "0.3"; "0.1"; "1.0"; "1.1"; "10.0"; "-0.0";
     "10000000000000000000000.0"; "inf"; "nan"].
Proof. vm_compute. reflexivity. Qed.

Example factor_of_key_examples :
  map factor_of_key ["Factor_4.0"; "Factor_0.1"; "Factor_inf"; "Native"]
  = [Ok 4.0; Ok 0.1; Ok infinity; Raise (ValueError "Native")]%float.
Proof. vm_compute. reflexivity. Qed.

(** ** Dicts *)

Section DictFacts.
Context {V : Type}.
Implicit Types (d : Dict.dict V) (k : string) (v : V).

Lemma get_setitem_same k v d : Dict.get k (Dict.setitem k v d) = Some v.
Proof.
  induction d as [|[k' v'] d IH]; simpl.
  - now rewrite String.eqb_refl.
  - destruct (String.eqb k' k) eqn:E; simpl; rewrite E; auto.
Qed.

Lemma get_setitem_other k k' v d :
  k <> k' -> Dict.get k' (Dict.setitem k v d) = Dict.get k' d.
Proof.
  intros Hne. induction d as [|[k0 v0] d IH]; simpl.
  - destruct (String.eqb k k') eqn:E; auto.
    apply String.eqb_eq in E. contradiction.
  - destruct (String.eqb k0 k) eqn:E; simpl.
    + apply String.eqb_eq in E. subst k0.
      destruct (String.eqb k k') eqn:E'; auto.
      apply String.eqb_eq in E'. contradiction.
    + now rewrite IH.
Qed.

Lemma get_some_in_keys k v d : Dict.get k d = Some v -> In k (Dict.keys d).
Proof.
  induction d as [|[k0 v0] d IH]; simpl; [discriminate|].
  destruct (String.eqb k0 k) eqn:E.
  - apply String.eqb_eq in E. auto.
  - auto.
Qed.

Lemma in_keys_get k d : In k (Dict.keys d) -> exists v, Dict.get k d = Some v.
Proof.
  induction d as [|[k0 v0] d IH]; simpl; [tauto|].
  intros [->|Hin].
  - rewrite String.eqb_refl. eauto.
  - destruct (String.eqb k0 k); eauto.
Qed.

Lemma get_none_not_in k d : Dict.get k d = None -> ~ In k (Dict.keys d).
Proof.
  intros Hn Hin. apply in_keys_get in Hin as [v Hv]. congruence.
Qed.

Lemma setitem_present k v d :
  In k (Dict.keys d) -> Dict.keys (Dict.setitem k v d) = Dict.keys d.
Proof.
  induction d as [|[k0 v0] d IH]; simpl; [tauto|].
  destruct (String.eqb k0 k) eqn:E; simpl; auto.
  intros [->|Hin]; [now rewrite String.eqb_refl in E|].
  now rewrite IH.
Qed.

Lemma setitem_absent k v d :
  ~ In k (Dict.keys d) -> Dict.setitem k v d = d ++ [(k, v)].
Proof.
  induction d as [|[k0 v0] d IH]; simpl; auto.
  intros Hn. destruct (String.eqb k0 k) eqn:E.
  - apply String.eqb_eq in E. tauto.
  - rewrite IH; tauto.
Qed.

Lemma in_keys_setitem k k' v d :
  In k' (Dict.keys (Dict.setitem k v d)) <-> k' = k \/ In k' (Dict.keys d).
Proof.
  split.
  - intros Hin. apply in_keys_get in Hin as [v' Hv'].
    destruct (string_dec k k') as [->|Hne]; auto.
    rewrite get_setitem_other in Hv' by assumption.
    right. eapply get_some_in_keys; eauto.
  - intros [->|Hin].
    + eapply get_some_in_keys, get_setitem_same.
    + destruct (string_dec k k') as [->|Hne].
      * eapply get_some_in_keys, get_setitem_same.
      * apply in_keys_get in Hin as [v' Hv'].
        eapply get_some_in_keys. rewrite get_setitem_other; eauto.
Qed.

Lemma setitem_nodup k v d :
  NoDup (Dict.keys d) -> NoDup (Dict.keys (Dict.setitem k v d)).
Proof.
  intros Hnd. destruct (in_dec string_dec k (Dict.keys d)) as [Hin|Hn].
  - now rewrite setitem_present.
  - rewrite setitem_absent by assumption.
    unfold Dict.keys in *. rewrite map_app. simpl.
    apply NoDup_app; [assumption|repeat constructor; simpl; tauto|].
    intros x Hx [<-|[]]. contradiction.
Qed.

(** A dict display whose keys differ stores the items as written. *)
Lemma of_items_from (l d : list (string * V)) :
  NoDup (map fst (d ++ l)) ->
  fold_left (fun d kv => Dict.setitem (fst kv) (snd kv) d) l d = d ++ l.
Proof.
  revert d. induction l as [|[k v] l IH]; intros d Hnd; simpl.
  - now rewrite app_nil_r.
  - rewrite setitem_absent.
    + rewrite IH; rewrite <- app_assoc; simpl; auto.
    + rewrite map_app in Hnd. simpl in Hnd.
      apply NoDup_remove_2 in Hnd. intros Hin. apply Hnd.
      apply in_or_app. now left.
Qed.

Lemma of_items_distinct (l : list (string * V)) :
  NoDup (map fst l) -> Dict.of_items l = l.
Proof.
  intros Hnd. unfold Dict.of_items. now rewrite of_items_from.
Qed.

End DictFacts.

(** ** Reactions and their bounds *)

Lemma constraints_items factor :
  constraints factor
  = map (fun c => (fst c, py_min 4.0 (factor * snd c)))
      [("NADH16", 1.0); ("CYTBD", 1.0); ("CS", 1.0);
       ("SUCDi", 1.0); ("ATPS4r", 1.0); ("O2t", 1.0)]%float.
Proof. reflexivity. Qed.

Lemma base_constraints_items :
  base_constraints
  = [("NADH16", 1.0); ("CYTBD", 1.0); ("CS", 1.0);
     ("SUCDi", 1.0); ("ATPS4r", 1.0); ("O2t", 1.0)]%float.
Proof. reflexivity. Qed.

Lemma get_by_id_id rxn rs r : get_by_id rxn rs = Some r -> id r = rxn.
Proof.
  induction rs as [|r0 rs IH]; simpl; [discriminate|].
  destruct (String.eqb (id r0) rxn) eqn:E; auto.
  intros [= <-]. now apply String.eqb_eq.
Qed.

Lemma update_absent rxn f rs :
  get_by_id rxn rs = None -> update_by_id rxn f rs = rs.
Proof.
  induction rs as [|r0 rs IH]; simpl; auto.
  destruct (String.eqb (id r0) rxn); [discriminate|].
  intros H. now rewrite IH.
Qed.

Lemma get_update_same rxn v rs :
  get_by_id rxn (update_by_id rxn (scale v) rs)
  = option_map (scale v) (get_by_id rxn rs).
Proof.
  induction rs as [|r0 rs IH]; simpl; auto.
  destruct (String.eqb (id r0) rxn) eqn:E; simpl; now rewrite E.
Qed.

Lemma get_update_other rxn rxn' v rs :
  rxn <> rxn' ->
  get_by_id rxn' (update_by_id rxn (scale v) rs) = get_by_id rxn' rs.
Proof.
  intros Hne. induction rs as [|r0 rs IH]; simpl; auto.
  destruct (String.eqb (id r0) rxn) eqn:E; simpl.
  - apply String.eqb_eq in E.
    destruct (String.eqb (id r0) rxn') eqn:E'; auto.
    apply String.eqb_eq in E'. congruence.
  - now rewrite IH.
Qed.

Lemma reset_bound_unmarked r : original_upper_bound r = None -> reset_bound r = r.
Proof. destruct r; simpl. intros ->. reflexivity. Qed.

Lemma reset_unmarked rs : no_markers rs -> map reset_bound rs = rs.
Proof.
  induction 1 as [|r rs Hr _ IH]; simpl; auto.
  now rewrite reset_bound_unmarked, IH.
Qed.

Lemma update_keeps_markers rxn v rs :
  no_markers rs -> no_markers (update_by_id rxn (scale v) rs).
Proof.
  induction 1 as [|r rs Hr Hrs IH]; simpl; [constructor|].
  destruct (String.eqb (id r) rxn); constructor; auto.
Qed.

Lemma scaled_keeps_markers factor rs : no_markers rs -> no_markers (scaled factor rs).
Proof.
  intros H. unfold scaled. rewrite reset_unmarked by assumption.
  generalize (constraints factor). intros cs. revert rs H.
  induction cs as [|c cs IH]; simpl; auto using update_keeps_markers.
Qed.

(** Scaling along a table with distinct keys multiplies a reaction's upper
    bound by its entry, once, and touches nothing else of it. *)
Lemma get_after_table (cs : Dict.dict float) rxn rs :
  NoDup (Dict.keys cs) ->
  get_by_id rxn
    (fold_left (fun rs c => update_by_id (fst c) (scale (snd c)) rs) cs rs)
  = option_map
      (fun r => match Dict.get rxn cs with
                | Some v => scale v r
                | None => r
                end)
      (get_by_id rxn rs).
Proof.
  revert rs. induction cs as [|[k v] cs IH]; intros rs Hnd; simpl.
  - now destruct (get_by_id rxn rs).
  - inversion Hnd as [|? ? Hk Hnd']; subst. rewrite IH by assumption.
    destruct (String.eqb k rxn) eqn:E.
    + apply String.eqb_eq in E. subst k. rewrite get_update_same.
      destruct (Dict.get rxn cs) eqn:G.
      * apply get_some_in_keys in G. contradiction.
      * now destruct (get_by_id rxn rs).
    + rewrite get_update_other; auto.
      intros ->. now rewrite String.eqb_refl in E.
Qed.

Lemma constraints_keys factor :
  Dict.keys (constraints factor) = Dict.keys base_constraints.
Proof. reflexivity. Qed.

Lemma base_constraints_nodup : NoDup (Dict.keys base_constraints).
Proof.
  apply (NoDup_count_occ' string_dec). intros k Hin.
  simpl in Hin. decompose [or] Hin; subst; try reflexivity. contradiction.
Qed.

(** Line 35 entry by entry. *)
Lemma constraints_get rxn factor :
  Dict.get rxn (constraints factor)
  = option_map (fun base => py_min 4.0 (factor * base))
      (Dict.get rxn base_constraints).
Proof.
  rewrite constraints_items, base_constraints_items.
  generalize ([("NADH16", 1.0); ("CYTBD", 1.0); ("CS", 1.0);
               ("SUCDi", 1.0); ("ATPS4r", 1.0); ("O2t", 1.0)]%float).
  intros l. induction l as [|[k b] l IH]; simpl; auto.
  destruct (String.eqb k rxn); auto.
Qed.

Lemma scaled_get factor rxn rs :
  no_markers rs ->
  get_by_id rxn (scaled factor rs)
  = option_map
      (fun r => match Dict.get rxn base_constraints with
                | Some base => scale (py_min 4.0 (factor * base)) r
                | None => r
                end)
      (get_by_id rxn rs).
Proof.
  intros Hm. unfold scaled. rewrite reset_unmarked by assumption.
  rewrite get_after_table.
  - rewrite constraints_get. now destruct (Dict.get rxn base_constraints).
  - rewrite constraints_keys. apply base_constraints_nodup.
Qed.

(** ** One iteration, step by step *)

Lemma reactions_with_reactions f w :
  reactions (model (with_reactions f w)) = f (reactions (model w)).
Proof. reflexivity. Qed.

Lemma reactions_with_objective o w :
  reactions (model (with_objective o w)) = reactions (model w).
Proof. reflexivity. Qed.

Lemma stdout_with_objective o w : stdout (with_objective o w) = stdout w.
Proof. reflexivity. Qed.

Lemma stdout_print_line l w : stdout (print_line l w) = stdout w ++ [l].
Proof. reflexivity. Qed.

Lemma world_eq w w' :
  reactions (model w) = reactions (model w') ->
  objective (model w) = objective (model w') ->
  stdout w = stdout w' ->
  w = w'.
Proof.
  destruct w as [[rs o] out], w' as [[rs' o'] out']. simpl.
  now intros -> -> ->.
Qed.

(** The two setters: the store is refused exactly when the lower bound
    would be above the upper one. *)
Lemma store_upper_bound_cases v r :
  store_upper_bound v r
  = if (v <? lower_bound r)%float then Raise bounds_error
    else Ok (set_upper_bound v r).
Proof.
  unfold store_upper_bound, check_bounds.
  now destruct (v <? lower_bound r)%float.
Qed.

Lemma store_lower_bound_cases v r :
  store_lower_bound v r
  = if (upper_bound r <? v)%float then Raise bounds_error
    else Ok (set_lower_bound v r).
Proof.
  unfold store_lower_bound, check_bounds.
  now destruct (upper_bound r <? v)%float.
Qed.

Lemma update_found rxn (f : Reaction -> Reaction) rs r :
  get_by_id rxn rs = Some r ->
  update_by_id rxn (fun _ => f r) rs = update_by_id rxn f rs.
Proof.
  induction rs as [|r0 rs IH]; simpl; [discriminate|].
  destruct (String.eqb (id r0) rxn).
  - now intros [= ->].
  - intros H. now rewrite IH.
Qed.

Lemma store_bound_cases rxn setter w :
  store_bound rxn setter w
  = match get_by_id rxn (reactions (model w)) with
    | None => (Raise (KeyError rxn), w)
    | Some r =>
        match setter r with
        | Ok r' => (Ok tt, with_reactions (update_by_id rxn (fun _ => r')) w)
        | Raise e => (Raise e, w)
        end
    end.
Proof.
  unfold store_bound. cbv beta iota delta [bind get_model lift modify raise].
  destruct (get_by_id rxn (reactions (model w))) as [r|]; [|reflexivity].
  now destruct (setter r).
Qed.

(** Lines 37-40 for one entry: an absent reaction is passed over, a refused
    store raises in the world as it was, an accepted one scales the bound
    and prints the change. *)
Lemma apply_constraint_cases rxn v w :
  apply_constraint (rxn, v) w
  = match get_by_id rxn (reactions (model w)) with
    | None => (Ok tt, w)
    | Some r =>
        if (upper_bound r * v <? lower_bound r)%float
        then (Raise bounds_error, w)
        else (Ok tt,
              print_line (BoundChange rxn (upper_bound r) (upper_bound r * v))
                (with_reactions (update_by_id rxn (scale v)) w))
    end.
Proof.
  unfold apply_constraint. unfold bind at 1. unfold get_model at 1.
  destruct (get_by_id rxn (reactions (model w))) as [r|] eqn:G; [|reflexivity].
  unfold bind at 1. rewrite store_bound_cases, G, store_upper_bound_cases.
  destruct (upper_bound r * v <? lower_bound r)%float; [reflexivity|].
  change (set_upper_bound (upper_bound r * v) r) with (scale v r).
  unfold with_reactions. rewrite (update_found rxn (scale v) _ r G).
  unfold bind at 1. unfold get_model at 1. cbn [model reactions].
  rewrite get_update_same, G. reflexivity.
Qed.

Lemma for_each_cons {A} (a : A) l body w :
  for_each (a :: l) body w
  = match body a w with
    | (Ok _, w1) => for_each l body w1
    | (Raise e, w1) => (Raise e, w1)
    end.
Proof. reflexivity. Qed.

(** Lines 36-40, whatever the outcome: the entries of a first part of the
    table were applied, all of them when the loop returns, and the loop
    raises nothing but the error of a refused store. *)
Lemma apply_constraints_prefix (cs : Dict.dict float) w :
  exists done rest ls,
    cs = done ++ rest
    /\ reactions (model (snd (apply_constraints cs w)))
       = fold_left (fun rs c => update_by_id (fst c) (scale (snd c)) rs) done
           (reactions (model w))
    /\ objective (model (snd (apply_constraints cs w))) = objective (model w)
    /\ stdout (snd (apply_constraints cs w)) = stdout w ++ ls
    /\ Forall (fun l => is_warning l = false) ls
    /\ (fst (apply_constraints cs w) = Ok tt /\ rest = []
        \/ fst (apply_constraints cs w) = Raise bounds_error).
Proof.
  unfold apply_constraints, Dict.items. revert w.
  induction cs as [|[k v] cs IH]; intros w.
  - exists [], [], []. cbn [for_each ret snd fst fold_left app].
    rewrite app_nil_r. repeat split; auto.
  - rewrite for_each_cons, apply_constraint_cases.
    destruct (get_by_id k (reactions (model w))) as [r|] eqn:G.
    + destruct (upper_bound r * v <? lower_bound r)%float.
      * exists [], ((k, v) :: cs), []. cbn [snd fst fold_left app].
        rewrite app_nil_r. repeat split; auto.
      * set (w1 := print_line
                     (BoundChange k (upper_bound r) (upper_bound r * v))
                     (with_reactions (update_by_id k (scale v)) w)).
        destruct (IH w1) as (done & rest & ls & -> & Hr & Ho & Hs & Hl & Hf).
        exists ((k, v) :: done), rest,
          (BoundChange k (upper_bound r) (upper_bound r * v) :: ls).
        split; [reflexivity|]. split; [exact Hr|]. split; [exact Ho|].
        split; [rewrite Hs; unfold w1; rewrite stdout_print_line;
                now rewrite <- app_assoc|].
        split; [constructor; auto|exact Hf].
    + destruct (IH w) as (done & rest & ls & -> & Hr & Ho & Hs & Hl & Hf).
      exists ((k, v) :: done), rest, ls.
      split; [reflexivity|]. split; [|auto].
      rewrite Hr. cbn [fold_left fst snd]. now rewrite update_absent.
Qed.

Lemma reset_each_prefix rs :
  exists done rest,
    rs = done ++ rest
    /\ snd (reset_each rs) = map reset_bound done ++ rest
    /\ (fst (reset_each rs) = Ok tt /\ rest = []
        \/ fst (reset_each rs) = Raise bounds_error).
Proof.
  induction rs as [|r rs IH].
  - exists [], []. cbn. auto.
  - cbn [reset_each]. rewrite store_upper_bound_cases.
    destruct (reset_value r <? lower_bound r)%float.
    + exists [], (r :: rs). cbn. auto.
    + destruct IH as (done & rest & -> & Hs & Hf).
      destruct (reset_each (done ++ rest)) as [o rs'].
      cbn [snd fst] in *. subst rs'.
      exists (r :: done), rest. cbn [map app snd fst]. auto.
Qed.

(** Lines 32-33, whatever the outcome: a first part of the reactions was
    reset, all of them when the loop returns. *)
Lemma reset_bounds_prefix w :
  exists done rest,
    reactions (model w) = done ++ rest
    /\ reactions (model (snd (reset_bounds w))) = map reset_bound done ++ rest
    /\ objective (model (snd (reset_bounds w))) = objective (model w)
    /\ stdout (snd (reset_bounds w)) = stdout w
    /\ (fst (reset_bounds w) = Ok tt /\ rest = []
        \/ fst (reset_bounds w) = Raise bounds_error).
Proof.
  unfold reset_bounds.
  destruct (reset_each_prefix (reactions (model w)))
    as (done & rest & E & Hs & Hf).
  destruct (reset_each (reactions (model w))) as [o rs'].
  cbn [snd fst] in *. exists done, rest. auto.
Qed.

Lemma set_bounds_unfold factor w :
  set_bounds factor w
  = match reset_bounds w with
    | (Ok _, w1) => apply_constraints (constraints factor) w1
    | (Raise e, w1) => (Raise e, w1)
    end.
Proof. reflexivity. Qed.

(** Lines 31-40, whatever the outcome. *)
Lemma set_bounds_prefix factor w :
  exists reset unreset done rest ls,
    reactions (model w) = reset ++ unreset
    /\ constraints factor = done ++ rest
    /\ reactions (model (snd (set_bounds factor w)))
       = fold_left (fun rs c => update_by_id (fst c) (scale (snd c)) rs) done
           (map reset_bound reset ++ unreset)
    /\ objective (model (snd (set_bounds factor w))) = objective (model w)
    /\ stdout (snd (set_bounds factor w)) = stdout w ++ ls
    /\ Forall (fun l => is_warning l = false) ls
    /\ (fst (set_bounds factor w) = Ok tt /\ unreset = [] /\ rest = []
        \/ fst (set_bounds factor w) = Raise bounds_error).
Proof.
  rewrite set_bounds_unfold.
  destruct (reset_bounds_prefix w) as (reset & unreset & E & Hr & Ho & Hs & Hf).
  destruct (reset_bounds w) as [[[]|e] w1]; cbn [snd fst] in *.
  - destruct Hf as [[_ ->]|Hf]; [|discriminate].
    destruct (apply_constraints_prefix (constraints factor) w1)
      as (done & rest & ls & Ec & Hr' & Ho' & Hs' & Hl & Hf').
    exists reset, [], done, rest, ls.
    split; [exact E|]. split; [exact Ec|].
    split; [now rewrite Hr', Hr|]. split; [now rewrite Ho', Ho|].
    split; [now rewrite Hs', Hs|]. split; [exact Hl|].
    destruct Hf' as [[Hf' ->]|Hf']; auto.
  - destruct Hf as [[Hf _]|Hf]; [discriminate|]. injection Hf as ->.
    exists reset, unreset, [], (constraints factor), [].
    cbn [fold_left app]. rewrite app_nil_r. repeat split; auto.
Qed.

Lemma set_bounds_reset factor w w1 :
  set_bounds factor w = (Ok tt, w1) -> exists w0, reset_bounds w = (Ok tt, w0).
Proof.
  rewrite set_bounds_unfold.
  destruct (reset_bounds w) as [[[]|e] w0]; [eauto|discriminate].
Qed.

(** When lines 31-40 return, every store was accepted: the reactions are
    the scaled ones, and only bound changes were printed. *)
Lemma set_bounds_ok factor w w1 :
  set_bounds factor w = (Ok tt, w1) ->
  reactions (model w1) = scaled factor (reactions (model w))
  /\ objective (model w1) = objective (model w)
  /\ exists ls, stdout w1 = stdout w ++ ls
                /\ Forall (fun l => is_warning l = false) ls.
Proof.
  intros H.
  destruct (set_bounds_prefix factor w)
    as (reset & unreset & done & rest & ls & E & Ec & Hr & Ho & Hs & Hl & Hf).
  rewrite H in *. cbn [snd fst] in *.
  destruct Hf as [(_ & -> & ->)|Hf]; [|discriminate].
  rewrite !app_nil_r in *. unfold scaled. rewrite E, Ec. eauto.
Qed.

(** Lines 31-40 raise nothing but the error of a refused store. *)
Lemma set_bounds_raises factor w e w1 :
  set_bounds factor w = (Raise e, w1) -> e = bounds_error.
Proof.
  intros H.
  destruct (set_bounds_prefix factor w)
    as (reset & unreset & done & rest & ls & _ & _ & _ & _ & _ & _ & Hf).
  rewrite H in Hf. cbn [fst] in Hf.
  destruct Hf as [[Hf _]|Hf]; [discriminate|]. now injection Hf.
Qed.

Lemma set_objective_cases w :
  set_objective w
  = match get_by_id biomass_id (reactions (model w)) with
    | None => (Raise (AttributeError biomass_id), w)
    | Some b =>
        match get_by_id atpm_id (reactions (model w)) with
        | None => (Raise (AttributeError atpm_id), w)
        | Some a =>
            (Ok tt,
             with_objective
               (Dict.of_items [(id b, 0.5%float); (id a, 0.5%float)]) w)
        end
    end.
Proof.
  unfold set_objective, reaction_attr.
  cbv beta iota delta [bind modify get_model ret raise].
  destruct (get_by_id biomass_id (reactions (model w))); [|reflexivity].
  now destruct (get_by_id atpm_id (reactions (model w))).
Qed.

Lemma prepare_unfold factor w :
  prepare factor w
  = match set_bounds factor w with
    | (Ok _, w0) => set_objective w0
    | (Raise e, w0) => (Raise e, w0)
    end.
Proof. reflexivity. Qed.

(** A [prepare] that returns went through lines 31-40 and then set the
    objective. *)
Lemma prepare_inv factor w w1 :
  prepare factor w = (Ok tt, w1) ->
  exists w0,
    set_bounds factor w = (Ok tt, w0)
    /\ w1 = with_objective [(biomass_id, 0.5%float); (atpm_id, 0.5%float)] w0.
Proof.
  rewrite prepare_unfold.
  destruct (set_bounds factor w) as [[[]|e] w0]; [|discriminate].
  rewrite set_objective_cases.
  destruct (get_by_id biomass_id (reactions (model w0))) as [b|] eqn:Hb;
    [|discriminate].
  destruct (get_by_id atpm_id (reactions (model w0))) as [a|] eqn:Ha;
    [|discriminate].
  intros [= <-]. exists w0. split; [reflexivity|].
  apply get_by_id_id in Hb, Ha. now rewrite Hb, Ha.
Qed.

Lemma prepare_ok factor w w1 :
  prepare factor w = (Ok tt, w1) ->
  reactions (model w1) = scaled factor (reactions (model w))
  /\ exists ls, stdout w1 = stdout w ++ ls
                /\ Forall (fun l => is_warning l = false) ls.
Proof.
  intros H. apply prepare_inv in H as (w0 & H & ->).
  apply set_bounds_ok in H as (Hr & _ & Hs).
  rewrite reactions_with_objective, stdout_with_objective. auto.
Qed.

Section IterationFacts.
Variable optimize : Model -> outcome Solution.

(** The loop body once the solver has answered. *)
Lemma iteration_solved factor results w w1 solution :
  prepare factor w = (Ok tt, w1) ->
  optimize (model w1) = Ok solution ->
  iteration optimize factor results w = conclude factor solution results w1.
Proof.
  intros Hp Hs. unfold iteration, bind at 1. rewrite Hp.
  unfold bind, solve, bind, get_model, lift. now rewrite Hs.
Qed.

Lemma conclude_optimal factor results w1 solution :
  status solution = "optimal" ->
  conclude factor solution results w1
  = (Ok (Dict.setitem (label factor) (sweep_result solution) results),
     print_line (FluxSummary factor (firstn 5 (fluxes solution))) w1).
Proof. intros H. unfold conclude. rewrite H. reflexivity. Qed.

Lemma conclude_not_optimal factor results w1 solution :
  status solution <> "optimal" ->
  conclude factor solution results w1
  = (Ok results, print_line (SolverWarning (status solution) factor) w1).
Proof.
  intros H. unfold conclude.
  destruct (String.eqb (status solution) "optimal") eqn:E.
  - apply String.eqb_eq in E. contradiction.
  - reflexivity.
Qed.

(** Whatever the outcome of an iteration, the reactions it leaves are
    those lines 31-40 leave. *)
Lemma iteration_reactions factor results w :
  reactions (model (snd (iteration optimize factor results w)))
  = reactions (model (snd (set_bounds factor w))).
Proof.
  unfold iteration, bind at 1. rewrite prepare_unfold.
  destruct (set_bounds factor w) as [[[]|e] w0]; [|reflexivity].
  rewrite set_objective_cases. cbn [snd].
  destruct (get_by_id biomass_id (reactions (model w0))); [|reflexivity].
  destruct (get_by_id atpm_id (reactions (model w0))); [|reflexivity].
  cbv beta iota delta [bind solve get_model lift].
  destruct (optimize _) as [sol|e]; [|reflexivity].
  unfold conclude. destruct (negb _);
    cbv beta iota delta [bind print modify ret snd print_line];
    reflexivity.
Qed.

(** An iteration that returns went through a solve. *)
Lemma iteration_ok_inv factor results w results' w' :
  iteration optimize factor results w = (Ok results', w') ->
  exists w1 solution,
    prepare factor w = (Ok tt, w1)
    /\ optimize (model w1) = Ok solution
    /\ conclude factor solution results w1 = (Ok results', w').
Proof.
  intros H. unfold iteration, bind at 1 in H.
  destruct (prepare factor w) as [[[]|e] w1] eqn:Hp; [|discriminate].
  cbv beta iota delta [bind solve get_model lift] in H.
  destruct (optimize (model w1)) as [sol|e] eqn:Hs; [|discriminate].
  eauto.
Qed.

Lemma sweep_reactions fs results w results' w' :
  sweep optimize fs results w = (Ok results', w') ->
  reactions (model w')
  = fold_left (fun rs f => scaled f rs) fs (reactions (model w)).
Proof.
  revert results w. induction fs as [|f fs IH]; intros results w H; simpl in *.
  - now injection H as _ <-.
  - unfold bind in H.
    destruct (iteration optimize f results w) as [[r1|e] w1] eqn:Hi;
      [|discriminate].
    rewrite (IH _ _ H). f_equal.
    pose proof (iteration_reactions f results w) as Hr.
    rewrite Hi in Hr. cbn [snd] in Hr. rewrite Hr.
    apply iteration_ok_inv in Hi as (w2 & sol & Hp & _ & _).
    apply prepare_inv in Hp as (w0 & Hb & _).
    rewrite Hb. cbn [snd]. now apply set_bounds_ok in Hb.
Qed.

End IterationFacts.

(** ** The bounds across a sweep *)

(** Without markers line 33 stores every upper bound back as it is:
    whether or not a setter refuses, the world stays as it was. *)
Lemma reset_bounds_unmarked w :
  no_markers (reactions (model w)) -> snd (reset_bounds w) = w.
Proof.
  intros H.
  destruct (reset_bounds_prefix w) as (done & rest & E & Hr & Ho & Hs & _).
  apply world_eq; auto.
  rewrite Hr, E. f_equal. apply reset_unmarked.
  unfold no_markers in *. rewrite E in H. now apply Forall_app in H.
Qed.

Lemma sweep_keeps_markers fs rs :
  no_markers rs -> no_markers (fold_left (fun rs f => scaled f rs) fs rs).
Proof.
  revert rs. induction fs as [|f fs IH]; simpl; auto using scaled_keeps_markers.
Qed.

Lemma sweep_upper_bound fs rxn base rs ub :
  no_markers rs ->
  Dict.get rxn base_constraints = Some base ->
  option_map upper_bound (get_by_id rxn rs) = Some ub ->
  option_map upper_bound
    (get_by_id rxn (fold_left (fun rs f => scaled f rs) fs rs))
  = Some (fold_left (fun ub f => (ub * py_min 4.0 (f * base))%float) fs ub).
Proof.
  intros Hm Hb. revert rs ub Hm.
  induction fs as [|f fs IH]; intros rs ub Hm Hu; simpl; auto.
  apply IH; auto using scaled_keeps_markers.
  rewrite scaled_get, Hb by assumption.
  destruct (get_by_id rxn rs) as [r|]; [|discriminate].
  simpl in *. now injection Hu as <-.
Qed.

(** A computation that returns [a] ends in the world it leaves. *)
Lemma run_returned {A} (c : M A) w a :
  fst (c w) = Ok a -> c w = (Ok a, snd (c w)).
Proof. destruct (c w). simpl. now intros ->. Qed.

(** A computation that raises [e] ends in the world it leaves. *)
Lemma run_raised {A} (c : M A) w e :
  fst (c w) = Raise e -> c w = (Raise e, snd (c w)).
Proof. destruct (c w). simpl. now intros ->. Qed.

Lemma toy_unmarked : no_markers (reactions (model Toy.toy_world)).
Proof. repeat constructor. Qed.

(** C1.  When no reaction carries an original-value marker, the reset step
    of an iteration leaves the world as it was (and returns, in a sweep
    that returns), so the overrides compound: after a sweep over [fs] that
    returns, the upper bound of every override-table reaction of the model
    is its initial value multiplied, iteration after iteration from the
    left, by [min(4.0, f * base)] for each factor [f] of [fs]; the markers
    are still absent then, so this holds for every later sweep too.  The
    same factor twice multiplies twice, and on the toy model the bound left
    by factor 2 twice differs from the bound left by factor 2 once. *)
Theorem overrides_compound
    (optimize : Model -> outcome Solution) (fs : list float)
    (w w' : World) (final : Dict.dict Record_) :
  no_markers (reactions (model w)) ->
  run_fba_with_enhancement optimize fs w = (Ok final, w') ->
  snd (reset_bounds w) = w
  /\ (fs <> [] -> reset_bounds w = (Ok tt, w))
  /\ no_markers (reactions (model w'))
  /\ (forall rxn base ub,
        Dict.get rxn base_constraints = Some base ->
        upper_bound_of rxn w = Some ub ->
        upper_bound_of rxn w'
        = Some (fold_left
                  (fun ub f => (ub * py_min 4.0 (f * base))%float) fs ub))
  /\ (forall f rxn base ub,
        fs = [f; f] ->
        Dict.get rxn base_constraints = Some base ->
        upper_bound_of rxn w = Some ub ->
        upper_bound_of rxn w'
        = Some (ub * py_min 4.0 (f * base) * py_min 4.0 (f * base))%float)
  /\ upper_bound_of "CS"
       (snd (run_fba_with_enhancement Toy.toy_optimize [2; 2]%float
               Toy.toy_world))
     <> upper_bound_of "CS"
          (snd (run_fba_with_enhancement Toy.toy_optimize [2]%float
                  Toy.toy_world)).
Proof.
  intros Hm Hrun. unfold run_fba_with_enhancement in Hrun.
  pose proof (sweep_reactions optimize fs [] w final w' Hrun) as Hrs.
  assert (Hall : forall rxn base ub,
             Dict.get rxn base_constraints = Some base ->
             upper_bound_of rxn w = Some ub ->
             upper_bound_of rxn w'
             = Some (fold_left
                       (fun ub f => (ub * py_min 4.0 (f * base))%float) fs ub)).
  { intros rxn base ub Hb Hu. unfold upper_bound_of in *. rewrite Hrs.
    now apply sweep_upper_bound. }
  split; [now apply reset_bounds_unmarked|].
  split.
  { intros Hne. destruct fs as [|f fs']; [contradiction|].
    cbn [sweep] in Hrun. unfold bind at 1 in Hrun.
    destruct (iteration optimize f [] w) as [[r1|e] w1] eqn:Hi;
      [|discriminate].
    apply iteration_ok_inv in Hi as (w2 & sol & Hp & _ & _).
    apply prepare_inv in Hp as (w0 & Hb & _).
    apply set_bounds_reset in Hb as (w3 & Hb).
    pose proof (reset_bounds_unmarked w Hm) as E.
    rewrite Hb in E. cbn [snd] in E. now rewrite Hb, E. }
  split; [rewrite Hrs; now apply sweep_keeps_markers|].
  split; [exact Hall|].
  split.
  - intros f rxn base ub -> Hb Hu. now rewrite (Hall rxn base ub).
  - vm_compute. discriminate.
Qed.

Lemma overrides_compound_witness :
  no_markers (reactions (model Toy.toy_world))
  /\ upper_bound_of "CS"
       (snd (run_fba_with_enhancement Toy.toy_optimize [2; 3]%float
               Toy.toy_world))
     = Some 6000%float.
Proof.
  split; [exact toy_unmarked|].
  edestruct (overrides_compound Toy.toy_optimize [2; 3]%float Toy.toy_world)
    as (_ & _ & _ & H & _);
    [exact toy_unmarked | apply run_returned; vm_compute; reflexivity |].
  exact (H "CS" 1%float 1000%float eq_refl eq_refl).
Defined.

(** The entries of a first part of a table with distinct keys are found in
    the table. *)
Lemma get_prefix {V} k (v : V) (d1 d2 : Dict.dict V) :
  Dict.get k d1 = Some v -> Dict.get k (d1 ++ d2) = Some v.
Proof.
  induction d1 as [|[k' v'] d1 IH]; simpl; [discriminate|].
  destruct (String.eqb k' k); auto.
Qed.

(** C6.  For every entry [(rxn, base)] of the override table and every
    factor, the factor-scaled copy of the table holds [min(4.0, factor *
    base)] for [rxn], and this is the multiplier line 39 applies.  The
    store of line 39 for this entry is refused by the setter, with
    [ValueError] and the world untouched, exactly when the product lies
    below the reaction's lower bound; otherwise it multiplies the upper
    bound of the reaction by the multiplier and prints the change.  When
    the whole copy has been applied without a refusal, the reaction has its
    upper bound multiplied by exactly this value; when a store was refused
    on the way, the reaction has its bound either so multiplied or
    untouched.  For the entry [("CS", 1.0)] the multiplier is 2.0 at factor
    2.0 and is capped to 4.0 at factor 5.0. *)
Theorem effective_multiplier
    (rxn : string) (base factor : float) (w : World) (r : Reaction) :
  Dict.get rxn base_constraints = Some base ->
  get_by_id rxn (reactions (model w)) = Some r ->
  Dict.get rxn (constraints factor) = Some (py_min 4.0 (factor * base))
  /\ apply_constraint (rxn, py_min 4.0 (factor * base)) w
     = (if (upper_bound r * py_min 4.0 (factor * base) <? lower_bound r)%float
        then (Raise bounds_error, w)
        else (Ok tt,
              print_line
                (BoundChange rxn (upper_bound r)
                   (upper_bound r * py_min 4.0 (factor * base)))
                (with_reactions
                   (update_by_id rxn
                      (fun _ =>
                         set_upper_bound
                           (upper_bound r * py_min 4.0 (factor * base)) r))
                   w)))
  /\ (forall w',
        apply_constraints (constraints factor) w = (Ok tt, w') ->
        get_by_id rxn (reactions (model w'))
        = Some (set_upper_bound
                  (upper_bound r * py_min 4.0 (factor * base)) r))
  /\ (forall e w',
        apply_constraints (constraints factor) w = (Raise e, w') ->
        e = bounds_error
        /\ (get_by_id rxn (reactions (model w')) = Some r
            \/ get_by_id rxn (reactions (model w'))
               = Some (set_upper_bound
                         (upper_bound r * py_min 4.0 (factor * base)) r)))
  /\ Dict.get "CS" base_constraints = Some 1.0%float
  /\ Dict.get "CS" (constraints 2.0) = Some 2.0%float
  /\ Dict.get "CS" (constraints 5.0) = Some 4.0%float.
Proof.
  intros Hb Hr.
  assert (Hc : Dict.get rxn (constraints factor)
               = Some (py_min 4.0 (factor * base))).
  { now rewrite constraints_get, Hb. }
  assert (Hnd : NoDup (Dict.keys (constraints factor))).
  { rewrite constraints_keys. apply base_constraints_nodup. }
  split; [exact Hc|]. split.
  { rewrite apply_constraint_cases, Hr.
    destruct (_ <? _)%float; [reflexivity|].
    unfold with_reactions.
    now rewrite <- (update_found rxn (scale (py_min 4.0 (factor * base))) _ r
                      Hr). }
  destruct (apply_constraints_prefix (constraints factor) w)
    as (done & rest & ls & Ec & Hrs & _ & _ & _ & Hf).
  split; [|split; [|now vm_compute]].
  - intros w' H. rewrite H in *. cbn [snd fst] in *.
    destruct Hf as [[_ ->]|Hf]; [|discriminate].
    rewrite app_nil_r in Ec. subst done.
    rewrite Hrs, get_after_table, Hc, Hr by exact Hnd. reflexivity.
  - intros e w' H. rewrite H in *. cbn [snd fst] in *.
    destruct Hf as [[Hf _]|Hf]; [discriminate|]. injection Hf as ->.
    split; [reflexivity|].
    rewrite Hrs, get_after_table, Hr.
    + cbn [option_map].
      destruct (Dict.get rxn done) as [v|] eqn:Hd; [|now left].
      right. apply (get_prefix rxn v done rest) in Hd.
      rewrite <- Ec, Hc in Hd. injection Hd as <-. reflexivity.
    + rewrite Ec in Hnd. unfold Dict.keys in Hnd. rewrite map_app in Hnd.
      now apply NoDup_app_remove_r in Hnd.
Qed.

Lemma effective_multiplier_witness :
  Dict.get "CS" base_constraints = Some 1.0%float
  /\ get_by_id "CS" (reactions (model Toy.toy_world))
     = Some (Toy.rxn "CS" 0 1000)
  /\ get_by_id "CS"
       (reactions
          (model (snd (apply_constraints (constraints 5.0) Toy.toy_world))))
     = Some (Toy.rxn "CS" 0 4000)
  /\ apply_constraint ("CS", py_min 4.0 (-1.0 * 1.0)) Toy.toy_world
     = (Raise bounds_error, Toy.toy_world).
Proof.
  split; [reflexivity|]. split; [reflexivity|]. split.
  - edestruct (effective_multiplier "CS" 1.0 5.0 Toy.toy_world
                 (Toy.rxn "CS" 0 1000) eq_refl eq_refl)
      as (_ & _ & H & _).
    etransitivity;
      [apply H; apply run_returned; vm_compute; reflexivity|].
    vm_compute. reflexivity.
  - rewrite (proj1 (proj2 (effective_multiplier "CS" 1.0 (-1.0) Toy.toy_world
                             (Toy.rxn "CS" 0 1000) eq_refl eq_refl))).
    reflexivity.
Defined.

(** ** What an iteration leaves alone *)

Lemma framed_refl r : framed r r.
Proof. unfold framed. auto. Qed.

Lemma framed_trans r1 r2 r3 : framed r1 r2 -> framed r2 r3 -> framed r1 r3.
Proof.
  unfold framed. intros (Hi & Hl & Ho & Hu) (Hi' & Hl' & Ho' & Hu').
  repeat split; try congruence.
  intros Hc. rewrite Hu', Hu; auto. now rewrite Hi.
Qed.

Lemma Forall2_framed_refl rs : Forall2 framed rs rs.
Proof. induction rs; constructor; auto using framed_refl. Qed.

Lemma Forall2_framed_trans rs1 rs2 rs3 :
  Forall2 framed rs1 rs2 -> Forall2 framed rs2 rs3 -> Forall2 framed rs1 rs3.
Proof.
  intros H. revert rs3. induction H; intros rs3 H3; inversion H3; subst;
    constructor; eauto using framed_trans.
Qed.

Lemma update_framed rxn v rs :
  Dict.contains rxn base_constraints = true ->
  Forall2 framed rs (update_by_id rxn (scale v) rs).
Proof.
  intros Hc. induction rs as [|r rs IH]; simpl; [constructor|].
  destruct (String.eqb (id r) rxn) eqn:E.
  - constructor; [|apply Forall2_framed_refl].
    apply String.eqb_eq in E. unfold framed. simpl.
    repeat split; auto. rewrite E. congruence.
  - constructor; auto using framed_refl.
Qed.

Lemma table_framed (cs : Dict.dict float) rs :
  Forall (fun k => Dict.contains k base_constraints = true) (Dict.keys cs) ->
  Forall2 framed rs
    (fold_left (fun rs c => update_by_id (fst c) (scale (snd c)) rs) cs rs).
Proof.
  revert rs. induction cs as [|[k v] cs IH]; intros rs H; simpl.
  - apply Forall2_framed_refl.
  - inversion H; subst.
    eapply Forall2_framed_trans; [apply update_framed|apply IH]; eauto.
Qed.

(** Lines 31-40 without markers, whatever their outcome: a refused store
    leaves the stores before it, each of which is framed. *)
Lemma set_bounds_framed factor w :
  no_markers (reactions (model w)) ->
  Forall2 framed (reactions (model w))
    (reactions (model (snd (set_bounds factor w)))).
Proof.
  intros Hm.
  destruct (set_bounds_prefix factor w)
    as (reset & unreset & done & rest & ls & E & Ec & Hr & _).
  rewrite Hr. unfold no_markers in Hm. rewrite E in Hm.
  apply Forall_app in Hm as [Hm _].
  rewrite (reset_unmarked reset Hm), <- E.
  apply table_framed.
  assert (Hk : Forall (fun k => Dict.contains k base_constraints = true)
                 (Dict.keys (constraints factor))).
  { rewrite constraints_keys. repeat constructor. }
  rewrite Ec in Hk. unfold Dict.keys in Hk. rewrite map_app in Hk.
  now apply Forall_app in Hk.
Qed.

(** C10.  When no reaction carries an original-value marker, an iteration,
    whatever its outcome, leaves the model with the same reactions in the
    same order, each with its identifier, its lower bound and its absent
    marker unchanged, and with its upper bound unchanged unless the
    reaction is named in the override table; besides these upper bounds
    only the objective of the model can differ. *)
Theorem iteration_frame
    (optimize : Model -> outcome Solution) (factor : float)
    (results : Dict.dict Record_) (w : World) :
  no_markers (reactions (model w)) ->
  Forall2 framed (reactions (model w))
    (reactions (model (snd (iteration optimize factor results w)))).
Proof.
  intros Hm. rewrite iteration_reactions. now apply set_bounds_framed.
Qed.

Lemma iteration_frame_witness :
  no_markers (reactions (model Toy.toy_world))
  /\ Forall2 framed (reactions (model Toy.toy_world))
       (reactions
          (model (snd (iteration Toy.toy_optimize 3.0 [] Toy.toy_world)))).
Proof.
  split; [exact toy_unmarked|].
  exact (iteration_frame Toy.toy_optimize 3.0 [] Toy.toy_world toy_unmarked).
Defined.

(** ** The result mapping across a sweep *)

Section SweepFacts.
Variable optimize : Model -> outcome Solution.

Lemma sweep_app fs1 fs2 results w :
  sweep optimize (fs1 ++ fs2) results w
  = bind (sweep optimize fs1 results) (fun r => sweep optimize fs2 r) w.
Proof.
  revert results w. induction fs1 as [|f fs1 IH]; intros results w; simpl.
  - reflexivity.
  - unfold bind.
    destruct (iteration optimize f results w) as [[r1|e] w1]; auto.
Qed.

Lemma sweep_from fs1 fs2 results w0 w :
  sweep optimize fs1 [] w0 = (Ok results, w) ->
  run_fba_with_enhancement optimize (fs1 ++ fs2) w0
  = sweep optimize fs2 results w.
Proof.
  intros H. unfold run_fba_with_enhancement. rewrite sweep_app.
  unfold bind. now rewrite H.
Qed.

Lemma conclude_keys factor solution results w1 results' w' :
  conclude factor solution results w1 = (Ok results', w') ->
  results' = results
  \/ results' = Dict.setitem (label factor) (sweep_result solution) results.
Proof.
  unfold conclude. destruct (negb _); intros [= <- _]; auto.
Qed.

(** Every key of the mapping is the label of a factor of the sweep, and no
    key is ever dropped. *)
Lemma sweep_keys fs results w results' w' :
  sweep optimize fs results w = (Ok results', w') ->
  (forall k, In k (Dict.keys results) -> In k (Dict.keys results'))
  /\ (forall k, In k (Dict.keys results') ->
        In k (Dict.keys results) \/ exists f, In f fs /\ k = label f).
Proof.
  revert results w. induction fs as [|f fs IH]; intros results w H; simpl in H.
  - injection H as <- _. split; auto.
  - unfold bind in H.
    destruct (iteration optimize f results w) as [[r1|e] w1] eqn:Hi;
      [|discriminate].
    destruct (IH _ _ H) as [Hkeep Hnew].
    apply iteration_ok_inv in Hi as (w2 & sol & _ & _ & Hc).
    apply conclude_keys in Hc as [->| ->].
    + split; auto. intros k Hk. destruct (Hnew k Hk) as [?|(f' & ? & ?)]; auto.
      right. exists f'. simpl. auto.
    + split.
      * intros k Hk. apply Hkeep. apply in_keys_setitem. auto.
      * intros k Hk. destruct (Hnew k Hk) as [Hin|(f' & ? & ?)].
        -- apply in_keys_setitem in Hin as [->|Hin]; auto.
           right. exists f. simpl. auto.
        -- right. exists f'. simpl. auto.
Qed.

End SweepFacts.

(** C4.  A factor whose solve returns a status other than ["optimal"] adds
    no entry: its iteration returns the mapping it was given, having
    printed one warning, and the sweep goes on with the remaining factors
    from that same mapping; nothing is raised. *)
Theorem non_optimal_is_skipped
    (optimize : Model -> outcome Solution)
    (fs1 : list float) (factor : float) (rest : list float)
    (w0 w w1 : World) (results : Dict.dict Record_) (solution : Solution) :
  sweep optimize fs1 [] w0 = (Ok results, w) ->
  prepare factor w = (Ok tt, w1) ->
  optimize (model w1) = Ok solution ->
  status solution <> "optimal" ->
  iteration optimize factor results w
  = (Ok results, print_line (SolverWarning (status solution) factor) w1)
  /\ run_fba_with_enhancement optimize (fs1 ++ factor :: rest) w0
     = sweep optimize rest results
         (print_line (SolverWarning (status solution) factor) w1).
Proof.
  intros H0 Hp Hs Hn.
  assert (Hi : iteration optimize factor results w
               = (Ok results,
                  print_line (SolverWarning (status solution) factor) w1)).
  { rewrite (iteration_solved optimize factor results w w1 solution Hp Hs).
    now apply conclude_not_optimal. }
  split; [exact Hi|].
  rewrite (sweep_from optimize fs1 (factor :: rest) results w0 w H0).
  simpl. unfold bind. now rewrite Hi.
Qed.

Lemma non_optimal_is_skipped_witness :
  Dict.keys
    (match fst (run_fba_with_enhancement Toy.picky_optimize
                  ([1.0] ++ 2.0 :: [3.0])%float Toy.toy_world) with
     | Ok final => final
     | Raise _ => []
     end)
  = ["Factor_1.0"; "Factor_3.0"].
Proof.
  edestruct (non_optimal_is_skipped Toy.picky_optimize
               [1.0%float] 2.0%float [3.0%float] Toy.toy_world) as [_ H];
    [vm_compute; reflexivity | vm_compute; reflexivity
    | vm_compute; reflexivity | vm_compute; discriminate |].
  rewrite H. vm_compute. reflexivity.
Defined.

(** C7.  A factor of the sweep whose solve returns ["optimal"] is stored
    under the key made of ["Factor_"] and the factor written with one
    digit after the point: that key is set by its iteration, it is among
    the keys the sweep returns, and every key the sweep returns is such a
    label of one of the factors.  For the swept range of the script the
    labels are Factor_1.0, Factor_2.0, Factor_3.0 and Factor_4.0. *)
Theorem key_is_factor_label
    (optimize : Model -> outcome Solution)
    (fs1 : list float) (factor : float) (rest : list float)
    (w0 w w1 : World) (results : Dict.dict Record_) (solution : Solution) :
  sweep optimize fs1 [] w0 = (Ok results, w) ->
  prepare factor w = (Ok tt, w1) ->
  optimize (model w1) = Ok solution ->
  status solution = "optimal" ->
  iteration optimize factor results w
  = (Ok (Dict.setitem ("Factor_" ++ format_1f factor)%string
           (sweep_result solution) results),
     print_line (FluxSummary factor (firstn 5 (fluxes solution))) w1)
  /\ (forall final w',
        run_fba_with_enhancement optimize (fs1 ++ factor :: rest) w0
        = (Ok final, w') ->
        In ("Factor_" ++ format_1f factor)%string (Dict.keys final)
        /\ forall k, In k (Dict.keys final) ->
             exists f, In f (fs1 ++ factor :: rest)
                       /\ k = ("Factor_" ++ format_1f f)%string)
  /\ map (fun f => ("Factor_" ++ format_1f f)%string) factor_range
     = ["Factor_1.0"; "Factor_2.0"; "Factor_3.0"; "Factor_4.0"].
Proof.
  intros H0 Hp Hs Ho.
  assert (Hi : iteration optimize factor results w
               = (Ok (Dict.setitem (label factor) (sweep_result solution)
                        results),
                  print_line
                    (FluxSummary factor (firstn 5 (fluxes solution))) w1)).
  { rewrite (iteration_solved optimize factor results w w1 solution Hp Hs).
    now apply conclude_optimal. }
  split; [exact Hi|]. split; [|vm_compute; reflexivity].
  intros final w' Hrun. split.
  - rewrite (sweep_from optimize fs1 (factor :: rest) results w0 w H0) in Hrun.
    simpl in Hrun. unfold bind in Hrun. rewrite Hi in Hrun.
    apply sweep_keys in Hrun as [Hkeep _]. apply Hkeep.
    eapply get_some_in_keys. apply get_setitem_same.
  - intros k Hk. unfold run_fba_with_enhancement in Hrun.
    apply sweep_keys in Hrun as [_ Hnew].
    destruct (Hnew k Hk) as [[]|(f & Hf & ->)]. eauto.
Qed.

Lemma key_is_factor_label_witness :
  In "Factor_3.0"
    (Dict.keys
       (match fst (run_fba_with_enhancement Toy.picky_optimize
                     ([1.0; 2.0] ++ 3.0 :: [4.0])%float Toy.toy_world) with
        | Ok final => final
        | Raise _ => []
        end)).
Proof.
  edestruct (key_is_factor_label Toy.picky_optimize
               [1.0; 2.0]%float 3.0%float [4.0%float] Toy.toy_world)
    as (_ & H & _);
    [vm_compute; reflexivity | vm_compute; reflexivity
    | vm_compute; reflexivity | vm_compute; reflexivity |].
  edestruct H as [Hin _]; [apply run_returned; vm_compute; reflexivity|].
  vm_compute in Hin. vm_compute. exact Hin.
Defined.

(** C8.  In an iteration whose solve is optimal, a named reaction that is
    absent from the flux vector leaves its field of the stored record at
    the default: exactly 0.0 for ATP production, NADH turnover and growth
    rate, and for oxygen consumption the negated default, the zero of
    negative sign, which equals 0.0 as a float.  The iteration prints bound
    changes and the flux summary and no warning. *)
Theorem absent_flux_defaults_to_zero
    (optimize : Model -> outcome Solution) (factor : float)
    (results : Dict.dict Record_) (w w1 : World) (solution : Solution) :
  prepare factor w = (Ok tt, w1) ->
  optimize (model w1) = Ok solution ->
  status solution = "optimal" ->
  exists results' w' printed,
    iteration optimize factor results w = (Ok results', w')
    /\ Dict.get (label factor) results' = Some (sweep_result solution)
    /\ stdout w' = stdout w ++ printed
    /\ Forall (fun l => is_warning l = false) printed
    /\ (Dict.get "ATPM" (fluxes solution) = None ->
        Dict.get "ATP_production" (sweep_result solution) = Some 0.0%float)
    /\ (Dict.get "EX_o2_e" (fluxes solution) = None ->
        Dict.get "O2_consumption" (sweep_result solution)
        = Some (- 0.0)%float
        /\ py_eq (- 0.0) 0.0 = true)
    /\ (Dict.get "NADH16" (fluxes solution) = None ->
        Dict.get "NADH_turnover" (sweep_result solution) = Some 0.0%float)
    /\ (Dict.get biomass_id (fluxes solution) = None ->
        Dict.get "growth_rate" (sweep_result solution) = Some 0.0%float).
Proof.
  intros Hp Hs Ho.
  destruct (prepare_ok factor w w1 Hp) as (_ & ls & Hout & Hls).
  do 2 eexists. exists (ls ++ [FluxSummary factor (firstn 5 (fluxes solution))]).
  split.
  { rewrite (iteration_solved optimize factor results w w1 solution Hp Hs).
    now apply conclude_optimal. }
  split; [apply get_setitem_same|].
  split; [now rewrite stdout_print_line, Hout, app_assoc|].
  split; [apply Forall_app; split; auto|].
  unfold sweep_result, Dict.get_default.
  split; [intros ->; reflexivity|].
  split; [intros ->; split; reflexivity|].
  split; intros ->; reflexivity.
Qed.

Lemma absent_flux_defaults_to_zero_witness :
  exists results' w' record,
    iteration Toy.sparse_optimize 3.0 [] Toy.toy_world = (Ok results', w')
    /\ Dict.get "Factor_3.0" results' = Some record
    /\ Dict.get "ATP_production" record = Some 8.39%float
    /\ Dict.get "O2_consumption" record = Some (- 0.0)%float
    /\ Dict.get "NADH_turnover" record = Some 0.0%float
    /\ Dict.get "growth_rate" record = Some 0.0%float
    /\ Forall (fun l => is_warning l = false) (stdout w').
Proof.
  edestruct (absent_flux_defaults_to_zero Toy.sparse_optimize 3.0 []
               Toy.toy_world)
    as (results' & w' & printed & Hi & Hg & Hout & Hnw
        & _ & Ho2 & Hnadh & Hbio);
    [vm_compute; reflexivity | vm_compute; reflexivity
    | vm_compute; reflexivity |].
  exists results', w'. eexists.
  split; [exact Hi|]. split; [exact Hg|]. split; [reflexivity|].
  split; [exact (proj1 (Ho2 eq_refl))|].
  split; [exact (Hnadh eq_refl)|].
  split; [exact (Hbio eq_refl)|].
  rewrite Hout. exact Hnw.
Defined.

(** C9.  In an iteration whose solve is optimal, the stored record holds
    for oxygen consumption the negation of the flux reported for
    [EX_o2_e], and the negated default, a zero, when that reaction is
    absent from the flux vector; the three other fields hold the fluxes of
    [ATPM], [NADH16] and the biomass reaction as reported. *)
Theorem oxygen_consumption_is_negated
    (optimize : Model -> outcome Solution) (factor : float)
    (results : Dict.dict Record_) (w w1 : World) (solution : Solution) :
  prepare factor w = (Ok tt, w1) ->
  optimize (model w1) = Ok solution ->
  status solution = "optimal" ->
  exists results' w',
    iteration optimize factor results w = (Ok results', w')
    /\ Dict.get (label factor) results' = Some (sweep_result solution)
    /\ Dict.get "O2_consumption" (sweep_result solution)
       = Some (- Dict.get_default "EX_o2_e" 0.0 (fluxes solution))%float
    /\ (forall v, Dict.get "EX_o2_e" (fluxes solution) = Some v ->
          Dict.get "O2_consumption" (sweep_result solution)
          = Some (- v)%float)
    /\ (Dict.get "EX_o2_e" (fluxes solution) = None ->
        exists z, Dict.get "O2_consumption" (sweep_result solution) = Some z
                  /\ py_eq z 0.0 = true)
    /\ (forall v, Dict.get "ATPM" (fluxes solution) = Some v ->
          Dict.get "ATP_production" (sweep_result solution) = Some v)
    /\ (forall v, Dict.get "NADH16" (fluxes solution) = Some v ->
          Dict.get "NADH_turnover" (sweep_result solution) = Some v)
    /\ (forall v, Dict.get biomass_id (fluxes solution) = Some v ->
          Dict.get "growth_rate" (sweep_result solution) = Some v).
Proof.
  intros Hp Hs Ho. do 2 eexists.
  split.
  { rewrite (iteration_solved optimize factor results w w1 solution Hp Hs).
    now apply conclude_optimal. }
  split; [apply get_setitem_same|].
  unfold sweep_result, Dict.get_default.
  split; [reflexivity|].
  split; [intros v ->; reflexivity|].
  split; [intros ->; eexists; split; reflexivity|].
  repeat split; intros v ->; reflexivity.
Qed.

Lemma oxygen_consumption_is_negated_witness :
  exists results' w',
    iteration Toy.toy_optimize 1.0 [] Toy.toy_world = (Ok results', w')
    /\ Dict.get "Factor_1.0" results'
       = Some [("ATP_production", 10); ("O2_consumption", 5);
               ("NADH_turnover", 20); ("growth_rate", 1)]%float.
Proof.
  edestruct (oxygen_consumption_is_negated Toy.toy_optimize 1.0 []
               Toy.toy_world)
    as (results' & w' & Hi & Hg & _);
    [vm_compute; reflexivity | vm_compute; reflexivity
    | vm_compute; reflexivity |].
  exists results', w'. split; [exact Hi|].
  vm_compute in Hg. exact Hg.
Defined.

(** ** Sweeps whose solves are all optimal *)

Section EverySolveOptimalFacts.
Variable optimize : Model -> outcome Solution.

Lemma sweep_all_optimal fs w :
  every_solve_optimal optimize fs w ->
  forall results,
    NoDup (Dict.keys results) ->
    exists final w',
      sweep optimize fs results w = (Ok final, w')
      /\ NoDup (Dict.keys final)
      /\ (forall k, In k (Dict.keys final)
                    <-> In k (Dict.keys results) \/ In k (map label fs))
      /\ (NoDup (Dict.keys results ++ map label fs) ->
          Dict.keys final = Dict.keys results ++ map label fs).
Proof.
  induction 1 as [|f fs w w1 sol Hp Hs Ho _ IH]; intros results Hnd.
  - exists results, w. simpl.
    split; [reflexivity|]. split; [assumption|]. split.
    + intros k. tauto.
    + intros _. now rewrite app_nil_r.
  - set (results1 := Dict.setitem (label f) (sweep_result sol) results).
    destruct (IH results1) as (final & w' & Hrun & Hnd' & Hin & Hord).
    { now apply setitem_nodup. }
    exists final, w'. split.
    { simpl. unfold bind.
      rewrite (iteration_solved optimize f results w w1 sol Hp Hs).
      rewrite conclude_optimal by assumption. exact Hrun. }
    split; [exact Hnd'|]. split.
    + intros k. rewrite Hin. unfold results1. rewrite in_keys_setitem.
      simpl. intuition.
    + intros Hall. simpl in Hall.
      assert (Hfresh : ~ In (label f) (Dict.keys results)).
      { apply NoDup_remove_2 in Hall. intros Hk. apply Hall.
        apply in_or_app. now left. }
      assert (Hk1 : Dict.keys results1 = Dict.keys results ++ [label f]).
      { unfold results1. rewrite setitem_absent by assumption.
        unfold Dict.keys. now rewrite map_app. }
      rewrite Hord; rewrite Hk1, <- app_assoc; auto.
Qed.

End EverySolveOptimalFacts.

Lemma toy_always_optimal :
  every_solve_optimal Toy.toy_optimize [1.0; 1.04]%float Toy.toy_world.
Proof.
  eapply optimal_then_rest;
    [vm_compute; reflexivity | vm_compute; reflexivity | reflexivity |].
  eapply optimal_then_rest;
    [vm_compute; reflexivity | vm_compute; reflexivity | reflexivity |].
  apply no_factor_left.
Qed.

(** C5, as stated, fails: the factors 1.0 and 1.04 both solve with status
    optimal on the toy model, and the mapping returned for the two of them
    has the single key Factor_1.0. *)
Lemma two_factors_one_entry :
  every_solve_optimal Toy.toy_optimize [1.0; 1.04]%float Toy.toy_world
  /\ exists final w',
       run_fba_with_enhancement Toy.toy_optimize [1.0; 1.04]%float
         Toy.toy_world
       = (Ok final, w')
       /\ Dict.keys final = ["Factor_1.0"]
       /\ List.length final = 1%nat
       /\ List.length [1.0; 1.04]%float = 2%nat.
Proof.
  split; [exact toy_always_optimal|].
  do 2 eexists. split; [apply run_returned; vm_compute; reflexivity|].
  vm_compute. auto.
Qed.

(** C5, amended.  When every solve of the sweep returns the status optimal,
    the sweep returns a mapping whose keys are exactly the labels of the
    factors, ["Factor_"] followed by the factor with one digit after the
    point, each key once.  When the labels of the factors are pairwise
    distinct, the keys are the labels in the order of the factors, and the
    mapping has as many entries as there are factors: one per factor. *)
Theorem one_entry_per_distinct_label
    (optimize : Model -> outcome Solution) (fs : list float) (w : World) :
  every_solve_optimal optimize fs w ->
  exists final w',
    run_fba_with_enhancement optimize fs w = (Ok final, w')
    /\ NoDup (Dict.keys final)
    /\ (forall k, In k (Dict.keys final)
                  <-> exists f, In f fs
                                /\ k = ("Factor_" ++ format_1f f)%string)
    /\ (NoDup (map (fun f => ("Factor_" ++ format_1f f)%string) fs) ->
        Dict.keys final
        = map (fun f => ("Factor_" ++ format_1f f)%string) fs
        /\ List.length final = List.length fs).
Proof.
  intros H.
  destruct (sweep_all_optimal optimize fs w H [] (NoDup_nil _))
    as (final & w' & Hrun & Hnd & Hin & Hord).
  exists final, w'. split; [exact Hrun|]. split; [exact Hnd|]. split.
  - intros k. rewrite Hin, in_map_iff. unfold label. simpl.
    split.
    + intros [[]|(f & <- & Hf)]. eauto.
    + intros (f & Hf & ->). right. eauto.
  - intros Hl. specialize (Hord Hl). simpl in Hord. split; [exact Hord|].
    rewrite <- (length_map fst final). fold (Dict.keys final).
    now rewrite Hord, length_map.
Qed.

Lemma toy_optimal_twice :
  every_solve_optimal Toy.toy_optimize [1.0; 2.0]%float Toy.toy_world.
Proof.
  eapply optimal_then_rest;
    [vm_compute; reflexivity | vm_compute; reflexivity | reflexivity |].
  eapply optimal_then_rest;
    [vm_compute; reflexivity | vm_compute; reflexivity | reflexivity |].
  apply no_factor_left.
Qed.

Lemma one_entry_per_distinct_label_witness :
  exists final w',
    run_fba_with_enhancement Toy.toy_optimize [1.0; 2.0]%float Toy.toy_world
    = (Ok final, w')
    /\ Dict.keys final = ["Factor_1.0"; "Factor_2.0"]
    /\ List.length final = 2%nat.
Proof.
  destruct (one_entry_per_distinct_label Toy.toy_optimize [1.0; 2.0]%float
              Toy.toy_world toy_optimal_twice)
    as (final & w' & Hrun & _ & _ & Hdistinct).
  exists final, w'. split; [exact Hrun|].
  apply Hdistinct. vm_compute.
  constructor; [simpl; intros [H|[]]; discriminate H|].
  constructor; [simpl; tauto|constructor].
Defined.

(** ** The largest flux changes *)

Lemma four_fields_get rec k :
  four_fields rec -> ~ In k field_names -> Dict.get k rec = None.
Proof.
  intros (a & o & n & g & ->) Hk.
  unfold field_names in Hk. cbn [In] in Hk. cbn [Dict.get].
  repeat match goal with
         | |- context [String.eqb ?x k] =>
             destruct (String.eqb_spec x k); [tauto|]
         end.
  reflexivity.
Qed.

(** Lines 102-103 read both records at reaction identifiers, while the
    records are keyed by the four field names: whatever the records hold,
    a model none of whose reactions is named like a field has no flux
    change to show. *)
Lemma flux_changes_blind rs high native :
  four_fields high -> four_fields native ->
  Forall (fun r => ~ In (id r) field_names) rs ->
  flux_changes rs high native = [] /\ top_of (flux_changes rs high native) = [].
Proof.
  intros Hh Hn Hrs.
  assert (E : flux_changes rs high native = []).
  { unfold flux_changes.
    replace (filter _ rs) with (@nil Reaction); [reflexivity|].
    induction Hrs as [|r rs Hr _ IH]; simpl; auto.
    unfold flux_delta, Dict.get_default.
    rewrite (four_fields_get high (id r) Hh Hr).
    rewrite (four_fields_get native (id r) Hn Hr).
    exact IH. }
  now rewrite E.
Qed.

(** C3, on the code.  With a solver that reports zero fluxes, the script
    ends with the Native record at the literal estimate and the record of
    the highest factor, Factor_4.0, at four times it: all four fields
    differ by more than 0.1, and the flux changes the script prints are
    empty. *)
Theorem top_fluxes_misses_field_changes :
  exists results actual_results w' high native,
    script Toy.zero_optimize Toy.toy_world
    = (Ok (results, actual_results, Changes []), w')
    /\ max_factor_key results = Ok "Factor_4.0"
    /\ Dict.get "Factor_4.0" actual_results = Some high
    /\ Dict.get "Native" actual_results = Some native
    /\ high = factor_estimate 4.0
    /\ native = native_estimate
    /\ forallb
         (fun field =>
            (0.1 <? abs (Dict.get_default field 0.0 high
                         - Dict.get_default field 0.0 native))%float)
         field_names
       = true.
Proof.
  do 5 eexists.
  split; [apply run_returned; vm_compute; reflexivity|].
  vm_compute. repeat split; reflexivity.
Qed.

(** ** Filling in the estimates *)

Lemma sweep_result_four solution : four_fields (sweep_result solution).
Proof. unfold four_fields. repeat eexists. Qed.

Lemma needs_estimate_four rec :
  four_fields rec -> needs_estimate rec = Ok (has_zero rec).
Proof.
  intros (a & o & n & g & ->).
  unfold needs_estimate, has_zero, getitem, obind. cbn.
  destruct (a =? 0)%float; reflexivity.
Qed.

Lemma update_four rec estimate :
  four_fields rec -> four_fields estimate ->
  Dict.update
    (Dict.of_items
       (filter (fun kv => Dict.contains (fst kv) rec) (Dict.items estimate)))
    rec
  = estimate.
Proof. intros (a & o & n & g & ->) (a' & o' & n' & g' & ->). reflexivity. Qed.

Lemma get_some_in {V} k (v : V) d : Dict.get k d = Some v -> In (k, v) d.
Proof.
  induction d as [|[k0 v0] d IH]; simpl; [discriminate|].
  destruct (String.eqb_spec k0 k) as [->|_]; auto.
  intros [= ->]. auto.
Qed.

Lemma estimates_four key estimate :
  Dict.get key estimated_results = Some estimate -> four_fields estimate.
Proof.
  intros H. apply get_some_in in H.
  assert (F : Forall (fun kr => four_fields (snd kr)) estimated_results).
  { vm_compute. repeat constructor; repeat eexists. }
  rewrite Forall_forall in F. exact (F _ H).
Qed.

Lemma get_app_fresh {V} k (d1 d2 : Dict.dict V) :
  ~ In k (Dict.keys d1) -> Dict.get k (d1 ++ d2) = Dict.get k d2.
Proof.
  induction d1 as [|[k0 v0] d1 IH]; simpl; auto.
  intros Hn. destruct (String.eqb_spec k0 k); [tauto|]. apply IH. tauto.
Qed.

Lemma setitem_app_fresh {V} k (v : V) (d1 d2 : Dict.dict V) :
  ~ In k (Dict.keys d1) ->
  Dict.setitem k v (d1 ++ d2) = d1 ++ Dict.setitem k v d2.
Proof.
  induction d1 as [|[k0 v0] d1 IH]; simpl; auto.
  intros Hn. destruct (String.eqb_spec k0 k); [tauto|]. rewrite IH; tauto.
Qed.

Lemma fill_key_head (d1 d2 : Dict.dict Record_) key rec :
  ~ In key (Dict.keys d1) ->
  four_fields rec ->
  Dict.contains key estimated_results = true ->
  fill_key estimated_results (d1 ++ (key, rec) :: d2) key
  = Ok (d1 ++ (key, patch key rec) :: d2).
Proof.
  intros Hfresh Hrec Hest. unfold fill_key, getitem.
  rewrite get_app_fresh by assumption.
  cbn [Dict.get]. rewrite String.eqb_refl. cbn [obind].
  rewrite needs_estimate_four by assumption. cbn [obind].
  unfold patch. destruct (has_zero rec); [|reflexivity].
  unfold Dict.contains in Hest.
  destruct (Dict.get key estimated_results) as [estimate|] eqn:E;
    [|discriminate].
  cbn [obind]. rewrite update_four; eauto using estimates_four.
  rewrite setitem_app_fresh by assumption.
  cbn [Dict.setitem]. now rewrite String.eqb_refl.
Qed.

Lemma fill_from (d2 : Dict.dict Record_) :
  forall d1,
    NoDup (Dict.keys (d1 ++ d2)) ->
    (forall k r, In (k, r) d2 ->
       four_fields r /\ Dict.contains k estimated_results = true) ->
    fold_left
      (fun acc key => obind acc (fun d => fill_key estimated_results d key))
      (Dict.keys d2) (Ok (d1 ++ d2))
    = Ok (d1 ++ map patch_item d2).
Proof.
  induction d2 as [|[k r] d2 IH]; intros d1 Hnd Hall; [reflexivity|].
  cbn [Dict.keys map fold_left obind fst].
  destruct (Hall k r (or_introl eq_refl)) as [Hr He].
  assert (Hfresh : ~ In k (Dict.keys d1)).
  { unfold Dict.keys in Hnd. rewrite map_app in Hnd. cbn [map fst] in Hnd.
    apply NoDup_remove_2 in Hnd. intros Hin. apply Hnd.
    apply in_or_app. now left. }
  rewrite fill_key_head by assumption.
  change (d1 ++ (k, patch k r) :: d2) with (d1 ++ [(k, patch k r)] ++ d2).
  rewrite app_assoc. fold (Dict.keys d2). rewrite IH.
  - rewrite <- app_assoc. reflexivity.
  - unfold Dict.keys in *. rewrite !map_app in *. cbn [map fst] in *.
    now rewrite <- app_assoc.
  - intros k' r' Hin. apply Hall. now right.
Qed.

Lemma fill_estimates_patches (d : Dict.dict Record_) :
  NoDup (Dict.keys d) ->
  (forall k r, In (k, r) d ->
     four_fields r /\ Dict.contains k estimated_results = true) ->
  fill_estimates estimated_results d = Ok (map patch_item d).
Proof. intros Hnd Hall. exact (fill_from d [] Hnd Hall). Qed.

Lemma get_patched key (d : Dict.dict Record_) :
  Dict.get key (map patch_item d) = option_map (patch key) (Dict.get key d).
Proof.
  induction d as [|[k r] d IH]; simpl; auto.
  destruct (String.eqb_spec k key) as [->|_]; auto.
Qed.

Lemma keys_patched (d : Dict.dict Record_) :
  Dict.keys (map patch_item d) = Dict.keys d.
Proof. unfold Dict.keys. rewrite map_map. reflexivity. Qed.

(** ** The script, step by step *)

Lemma bind_ok {A B} (c : M A) (k : A -> M B) w b w' :
  bind c k w = (Ok b, w') ->
  exists a w1, c w = (Ok a, w1) /\ k a w1 = (Ok b, w').
Proof.
  unfold bind. destruct (c w) as [[a|e] w1]; [eauto|discriminate].
Qed.

Lemma lift_ok {A} (r : outcome A) w a w' :
  lift r w = (Ok a, w') -> r = Ok a /\ w' = w.
Proof. unfold lift. intros [= -> ->]. auto. Qed.

Lemma in_setitem {V} k (v : V) k' v' d :
  In (k', v') (Dict.setitem k v d) -> (k', v') = (k, v) \/ In (k', v') d.
Proof.
  induction d as [|[k0 v0] d IH]; simpl.
  - intros [H|[]]. auto.
  - destruct (String.eqb_spec k0 k) as [->|_]; simpl.
    + intros [H|H]; auto.
    + intros [H|H]; auto. destruct (IH H); auto.
Qed.

Lemma factor_range_labels k :
  (exists f, In f factor_range /\ k = label f) ->
  In k ["Factor_1.0"; "Factor_2.0"; "Factor_3.0"; "Factor_4.0"].
Proof.
  intros (f & Hf & ->).
  change ["Factor_1.0"; "Factor_2.0"; "Factor_3.0"; "Factor_4.0"]
    with (map label factor_range).
  now apply in_map.
Qed.

Section ScriptFacts.
Variable optimize : Model -> outcome Solution.

Lemma conclude_inv factor solution results w1 results' w' :
  conclude factor solution results w1 = (Ok results', w') ->
  (status solution <> "optimal" /\ results' = results)
  \/ (status solution = "optimal"
      /\ results'
         = Dict.setitem (label factor) (sweep_result solution) results).
Proof.
  unfold conclude. destruct (String.eqb_spec (status solution) "optimal");
    intros [= <- _]; auto.
Qed.

Lemma sweep_well_formed fs results w results' w' :
  sweep optimize fs results w = (Ok results', w') ->
  NoDup (Dict.keys results) ->
  (forall k r, In (k, r) results -> four_fields r) ->
  NoDup (Dict.keys results')
  /\ (forall k r, In (k, r) results' -> four_fields r).
Proof.
  revert results w. induction fs as [|f fs IH]; intros results w H Hnd Hall.
  - injection H as <- _. auto.
  - simpl in H. apply bind_ok in H as (r1 & w1 & Hi & H).
    apply iteration_ok_inv in Hi as (w2 & sol & _ & _ & Hc).
    apply conclude_keys in Hc as [->| ->]; [eauto|].
    apply (IH _ _ H); [now apply setitem_nodup|].
    intros k r Hin. apply in_setitem in Hin as [[= -> ->]|Hin]; eauto.
    apply sweep_result_four.
Qed.

(** The record the script calls [native_solution] is the sweep result of
    one more solve for the factor 1.0. *)
Lemma native_solve w2 native_run w3 native_solution :
  run_fba_with_enhancement optimize [1.0%float] w2 = (Ok native_run, w3) ->
  Dict.get "Factor_1.0" native_run = Some native_solution ->
  exists w1 solution,
    prepare 1.0 w2 = (Ok tt, w1)
    /\ optimize (model w1) = Ok solution
    /\ status solution = "optimal"
    /\ native_solution = sweep_result solution.
Proof.
  unfold run_fba_with_enhancement. cbn [sweep]. intros H Hg.
  apply bind_ok in H as (r1 & w1 & Hi & H). injection H as -> ->.
  apply iteration_ok_inv in Hi as (ws & sol & Hp & Hs & Hc).
  exists ws, sol. apply conclude_inv in Hc as [[_ ->]|[Ho ->]];
    [discriminate Hg|].
  repeat split; auto.
  change (label 1.0) with "Factor_1.0" in Hg.
  cbn [Dict.setitem Dict.get] in Hg. rewrite String.eqb_refl in Hg.
  congruence.
Qed.

Lemma script_inv w results actual_results top w' :
  script optimize w = (Ok (results, actual_results, top), w') ->
  exists w1 swept w2 native_run w3 native_solution,
    run_fba_with_enhancement optimize factor_range w1 = (Ok swept, w2)
    /\ run_fba_with_enhancement optimize [1.0%float] w2 = (Ok native_run, w3)
    /\ Dict.get "Factor_1.0" native_run = Some native_solution
    /\ fill_estimates estimated_results
         (Dict.of_items (("Native", native_solution) :: Dict.items swept))
       = Ok actual_results
    /\ results = shared_records swept actual_results.
Proof.
  unfold script. intros H.
  apply bind_ok in H as (? & w1 & _ & H).
  apply bind_ok in H as (swept & w2 & Hrun & H).
  apply bind_ok in H as (native_run & w3 & Hnat & H).
  apply bind_ok in H as (native_solution & ? & Hget & H).
  apply bind_ok in H as (actual0 & ? & Hfill & H).
  apply bind_ok in H as (? & ? & _ & H).
  apply bind_ok in H as (? & ? & _ & H).
  apply bind_ok in H as (top0 & ? & _ & H).
  apply bind_ok in H as (? & ? & _ & H).
  injection H as <- -> -> _.
  apply lift_ok in Hget as [Hget ->]. apply lift_ok in Hfill as [Hfill _].
  exists w1, swept, w2, native_run, w3, native_solution.
  repeat split; auto.
  unfold getitem in Hget.
  destruct (Dict.get "Factor_1.0" native_run); congruence.
Qed.

End ScriptFacts.

Lemma estimate_known key :
  In key ["Native"; "Factor_1.0"; "Factor_2.0"; "Factor_3.0"; "Factor_4.0"] ->
  Dict.contains key estimated_results = true.
Proof.
  intros H. cbn [In] in H. decompose [or] H; subst; try contradiction;
    vm_compute; reflexivity.
Qed.

(** C2.  When the script reaches its end, every record of
    [actual_results], the Native one included, whose ATP production or
    growth rate equals 0.0 has been replaced by the estimate stored for its
    key, and every other record is as the sweep produced it.  The Native
    record is the result of one more solve for the factor 1.0: when that
    solve reports 0.0 for the ATP maintenance flux or for the biomass flux,
    the Native record ends as 8.39, 5.0, 10.0 and 1.00083. *)
Theorem zero_records_take_the_estimate
    (optimize : Model -> outcome Solution) (w w' : World)
    (results actual_results : Dict.dict Record_) (top : TopFluxes) :
  script optimize w = (Ok (results, actual_results, top), w') ->
  exists w0 swept w2 w1 solution native_solution,
    run_fba_with_enhancement optimize factor_range w0 = (Ok swept, w2)
    /\ prepare 1.0%float w2 = (Ok tt, w1)
    /\ optimize (model w1) = Ok solution
    /\ native_solution = sweep_result solution
    /\ Dict.keys actual_results = "Native" :: Dict.keys swept
    /\ (forall key rec,
          Dict.get key (("Native", native_solution) :: swept) = Some rec ->
          exists estimate,
            Dict.get key estimated_results = Some estimate
            /\ Dict.get key actual_results
               = Some (if has_zero rec then estimate else rec))
    /\ (py_eq (Dict.get_default "ATPM" 0.0%float (fluxes solution)) 0.0
        = true
        \/ py_eq (Dict.get_default biomass_id 0.0%float (fluxes solution)) 0.0
           = true ->
        Dict.get "Native" actual_results
        = Some [("ATP_production", 8.39); ("O2_consumption", 5.0);
                ("NADH_turnover", 10.0); ("growth_rate", 1.00083)]%float).
Proof.
  intros H.
  apply script_inv in H
    as (w1 & swept & w2 & native_run & w3 & ns
        & Hrun & Hnat & Hget & Hfill & _).
  destruct (native_solve optimize w2 native_run w3 ns Hnat Hget)
    as (ws & sol & Hp & Hs & _ & Hns).
  exists w1, swept, w2, ws, sol, ns. split; [exact Hrun|].
  split; [exact Hp|]. split; [exact Hs|]. split; [exact Hns|].
  unfold run_fba_with_enhancement in Hrun.
  destruct (sweep_well_formed optimize _ _ _ _ _ Hrun (NoDup_nil _))
    as [Hnd Hfour]; [intros k r []|].
  assert (Hkeys : forall k, In k (Dict.keys swept) ->
            In k ["Factor_1.0"; "Factor_2.0"; "Factor_3.0"; "Factor_4.0"]).
  { intros k Hk. apply factor_range_labels.
    destruct (sweep_keys optimize _ _ _ _ _ Hrun) as [_ Hnew].
    destruct (Hnew k Hk) as [[]|?]; assumption. }
  assert (Hpre : NoDup (Dict.keys (("Native", ns) :: swept))).
  { cbn [Dict.keys map fst]. constructor; [|exact Hnd].
    intros Hin. apply Hkeys in Hin. cbn [In] in Hin.
    decompose [or] Hin; try discriminate; contradiction. }
  unfold Dict.items in Hfill. rewrite of_items_distinct in Hfill by exact Hpre.
  rewrite fill_estimates_patches in Hfill; [|exact Hpre|].
  2:{ intros k r [[= <- <-]|Hin].
      - split; [rewrite Hns; apply sweep_result_four|reflexivity].
      - split; [eauto|]. apply estimate_known. right. apply Hkeys.
        apply (in_map fst) in Hin. exact Hin. }
  injection Hfill as <-.
  assert (Hall : forall key rec,
             Dict.get key (("Native", ns) :: swept) = Some rec ->
             exists estimate,
               Dict.get key estimated_results = Some estimate
               /\ Dict.get key (map patch_item (("Native", ns) :: swept))
                  = Some (if has_zero rec then estimate else rec)).
  { intros key rec Hk. rewrite get_patched, Hk. cbn [option_map].
    assert (Hc : Dict.contains key estimated_results = true).
    { apply estimate_known. apply get_some_in_keys in Hk.
      cbn [Dict.keys map fst In] in Hk. destruct Hk as [<-|Hk].
      - now left.
      - right. now apply Hkeys. }
    unfold Dict.contains in Hc. unfold patch.
    destruct (Dict.get key estimated_results) as [e|]; [|discriminate].
    exists e. split; [reflexivity|]. now destruct (has_zero rec). }
  split; [exact (keys_patched (("Native", ns) :: swept))|].
  split; [exact Hall|].
  intros Hzero.
  destruct (Hall "Native" ns) as (e & He & Hg).
  { cbn [Dict.get]. now rewrite String.eqb_refl. }
  etransitivity; [exact Hg|].
  change (Dict.get "Native" estimated_results) with (Some native_estimate)
    in He.
  injection He as <-.
  replace (has_zero ns) with true; [reflexivity|].
  rewrite Hns. unfold has_zero, sweep_result. cbn.
  symmetry. apply orb_true_iff. exact Hzero.
Qed.

Lemma zero_records_take_the_estimate_witness :
  exists results actual_results top w',
    script Toy.zero_optimize Toy.toy_world
    = (Ok (results, actual_results, top), w')
    /\ Dict.get "Native" actual_results
       = Some [("ATP_production", 8.39); ("O2_consumption", 5.0);
               ("NADH_turnover", 10.0); ("growth_rate", 1.00083)]%float.
Proof.
  do 4 eexists.
  split; [apply run_returned; vm_compute; reflexivity|].
  edestruct (zero_records_take_the_estimate Toy.zero_optimize Toy.toy_world)
    as (w0 & swept & w2 & w1 & solution & ns
        & _ & Hp & Hs & _ & _ & _ & Hnative);
    [apply run_returned; vm_compute; reflexivity|].
  apply Hnative. left.
  assert (E : Toy.zero_optimize (model w1)
              = Ok (mkSolution "optimal"
                      [("ATPM", 0.0); ("EX_o2_e", 0.0); ("NADH16", 0.0);
                       (biomass_id, 0.0)]%float)) by reflexivity.
  rewrite Hs in E. injection E as ->. reflexivity.
Defined.

(** * Further properties of the sweep *)

(** ** Exceptions of the sweep *)

Lemma run_is_sweep optimize fs w :
  run_fba_with_enhancement optimize fs w = sweep optimize fs [] w.
Proof. reflexivity. Qed.

Lemma get_by_id_map_reset rxn rs :
  get_by_id rxn (map reset_bound rs)
  = option_map reset_bound (get_by_id rxn rs).
Proof.
  induction rs as [|r rs IH]; simpl; auto.
  destruct (String.eqb (id r) rxn); auto.
Qed.

(** Lines 32-40 for any markers: the reaction a lookup finds is first reset,
    then scaled when the table names it. *)
Lemma scaled_get_any factor rxn rs :
  get_by_id rxn (scaled factor rs)
  = option_map
      (fun r => match Dict.get rxn base_constraints with
                | Some base =>
                    scale (py_min 4.0 (factor * base)) (reset_bound r)
                | None => reset_bound r
                end)
      (get_by_id rxn rs).
Proof.
  unfold scaled. rewrite get_after_table.
  - rewrite constraints_get, get_by_id_map_reset.
    destruct (get_by_id rxn rs); cbn [option_map]; auto.
    now destruct (Dict.get rxn base_constraints).
  - rewrite constraints_keys. apply base_constraints_nodup.
Qed.

Lemma prepare_raises factor w :
  get_by_id biomass_id (reactions (model w)) = None
  \/ get_by_id atpm_id (reactions (model w)) = None ->
  prepare factor w
  = match set_bounds factor w with
    | (Ok _, w0) =>
        (Raise (AttributeError
                  (match get_by_id biomass_id (reactions (model w)) with
                   | None => biomass_id
                   | Some _ => atpm_id
                   end)),
         w0)
    | (Raise e, w0) => (Raise e, w0)
    end.
Proof.
  intros H. rewrite prepare_unfold.
  destruct (set_bounds factor w) as [[[]|e] w0] eqn:Hb; [|reflexivity].
  apply set_bounds_ok in Hb as (Hr & _).
  rewrite set_objective_cases, Hr, !scaled_get_any.
  destruct (get_by_id biomass_id (reactions (model w))) as [b|];
    cbn [option_map]; [|reflexivity].
  destruct H as [H|H]; [discriminate|].
  rewrite H. reflexivity.
Qed.

(** X1.  The objective of lines 43-46 names the biomass and the ATP
    maintenance reaction.  On a model that lacks one of them a sweep over
    at least one factor never returns: it raises at its first factor.
    When a setter refuses a store of lines 33 or 39, it raises that
    [ValueError] in the world the stores before it left.  Otherwise every
    bound of that factor was applied and it raises [AttributeError], for
    the biomass reaction when that one is missing and for [ATPM]
    otherwise.  No solve took place and no later factor is looked at. *)
Theorem missing_objective_reaction_raises
    (optimize : Model -> outcome Solution)
    (factor : float) (rest : list float) (w : World) :
  get_by_id biomass_id (reactions (model w)) = None
  \/ get_by_id atpm_id (reactions (model w)) = None ->
  run_fba_with_enhancement optimize (factor :: rest) w
  = match set_bounds factor w with
    | (Ok _, w0) =>
        (Raise (AttributeError
                  (match get_by_id biomass_id (reactions (model w)) with
                   | None => biomass_id
                   | Some _ => atpm_id
                   end)),
         w0)
    | (Raise e, w0) => (Raise e, w0)
    end
  /\ (forall w0,
        set_bounds factor w = (Ok tt, w0) ->
        reactions (model w0) = scaled factor (reactions (model w)))
  /\ (forall e w0, set_bounds factor w = (Raise e, w0) -> e = bounds_error)
  /\ exists e w0,
       run_fba_with_enhancement optimize (factor :: rest) w = (Raise e, w0).
Proof.
  intros H.
  assert (E : run_fba_with_enhancement optimize (factor :: rest) w
              = match set_bounds factor w with
                | (Ok _, w0) =>
                    (Raise (AttributeError
                              (match get_by_id biomass_id (reactions (model w))
                               with
                               | None => biomass_id
                               | Some _ => atpm_id
                               end)),
                     w0)
                | (Raise e, w0) => (Raise e, w0)
                end).
  { rewrite run_is_sweep. cbn [sweep].
    unfold bind at 1. unfold iteration, bind at 1.
    rewrite (prepare_raises factor w H).
    now destruct (set_bounds factor w) as [[[]|e] w0]. }
  split; [exact E|].
  split; [intros w0 Hb; now apply set_bounds_ok in Hb|].
  split; [intros e w0 Hb; now apply set_bounds_raises in Hb|].
  rewrite E. destruct (set_bounds factor w) as [[[]|e] w0]; eauto.
Qed.

Lemma missing_objective_reaction_raises_witness :
  fst (run_fba_with_enhancement Toy.toy_optimize [2.0; 3.0]%float
         (mkWorld (mkModel [Toy.rxn "CS" 0 1000; Toy.rxn biomass_id 0 1000]
                     [])
            []))
  = Raise (AttributeError "ATPM")
  /\ upper_bound_of "CS"
       (snd (run_fba_with_enhancement Toy.toy_optimize [2.0; 3.0]%float
               (mkWorld
                  (mkModel [Toy.rxn "CS" 0 1000; Toy.rxn biomass_id 0 1000]
                     [])
                  [])))
     = Some 2000%float.
Proof.
  edestruct (missing_objective_reaction_raises Toy.toy_optimize 2.0%float
               [3.0%float]
               (mkWorld
                  (mkModel [Toy.rxn "CS" 0 1000; Toy.rxn biomass_id 0 1000]
                     [])
                  [])) as [H _]; [right; reflexivity|].
  rewrite H. vm_compute. split; reflexivity.
Defined.

(** X2.  Nothing catches what the solver raises: when the solve for a
    factor raises, the sweep raises the same exception in the world the
    solver was called in; the results gathered so far are lost and the
    remaining factors are not processed. *)
Theorem solver_exception_is_fatal
    (optimize : Model -> outcome Solution)
    (fs1 : list float) (factor : float) (rest : list float)
    (w0 w w1 : World) (results : Dict.dict Record_) (e : exn) :
  sweep optimize fs1 [] w0 = (Ok results, w) ->
  prepare factor w = (Ok tt, w1) ->
  optimize (model w1) = Raise e ->
  run_fba_with_enhancement optimize (fs1 ++ factor :: rest) w0
  = (Raise e, w1).
Proof.
  intros H0 Hp Hs.
  rewrite (sweep_from optimize fs1 (factor :: rest) results w0 w H0).
  cbn [sweep]. unfold bind at 1. unfold iteration, bind at 1. rewrite Hp.
  cbv beta iota delta [bind solve get_model lift]. now rewrite Hs.
Qed.

Module Faulty.

(** A solver that crashes once the bound of [CS] has reached 2000. *)
Definition crashing_optimize (m : Model) : outcome Solution :=
  match get_by_id "CS" (reactions m) with
  | Some r =>
      if (upper_bound r <? 2000)%float then Toy.toy_optimize m
      else Raise (SolverError "solver crashed")
  | None => Toy.toy_optimize m
  end.

(** The toy model with recorded original bounds on [CS] and [PGI]. *)
Definition marked_world : World :=
  mkWorld
    (mkModel
       [mkReaction "CS" 0 1000 (Some 500); mkReaction "ATPM" 8.39 1000 None;
        mkReaction biomass_id 0 1000 None;
        mkReaction "PGI" (-1000) 1000 (Some 70)]%float
       [])
    [].

(** A solver that finds the model infeasible once the bound of [CS] has
    reached 24000. *)
Definition late_infeasible (m : Model) : outcome Solution :=
  match get_by_id "CS" (reactions m) with
  | Some r =>
      if (upper_bound r <? 24000)%float then Toy.toy_optimize m
      else Ok (mkSolution "infeasible" [])
  | None => Toy.toy_optimize m
  end.

End Faulty.

Lemma solver_exception_is_fatal_witness :
  fst (run_fba_with_enhancement Faulty.crashing_optimize
         ([1.0] ++ 2.0 :: [3.0])%float Toy.toy_world)
  = Raise (SolverError "solver crashed")
  /\ upper_bound_of "CS"
       (snd (run_fba_with_enhancement Faulty.crashing_optimize
               ([1.0] ++ 2.0 :: [3.0])%float Toy.toy_world))
     = Some 2000%float.
Proof.
  erewrite (solver_exception_is_fatal Faulty.crashing_optimize
              [1.0%float] 2.0%float [3.0%float] Toy.toy_world);
    [| vm_compute; reflexivity | vm_compute; reflexivity
     | vm_compute; reflexivity].
  vm_compute. split; reflexivity.
Defined.

(** X17.  Nothing catches what a setter raises either: when a store of
    lines 33 or 39 is refused for a factor, because it would put the upper
    bound of a reaction below its lower bound, the sweep raises that
    [ValueError] in the world the stores before it left.  The results
    gathered so far are lost, no solve takes place for that factor, the
    remaining factors are not processed, and the objective is as the
    factor found it; without markers every reaction keeps all but its
    upper bound, and that too unless the override table names it. *)
Theorem refused_store_is_fatal
    (optimize : Model -> outcome Solution)
    (fs1 : list float) (factor : float) (rest : list float)
    (w0 w w1 : World) (results : Dict.dict Record_) (e : exn) :
  sweep optimize fs1 [] w0 = (Ok results, w) ->
  set_bounds factor w = (Raise e, w1) ->
  e = bounds_error
  /\ run_fba_with_enhancement optimize (fs1 ++ factor :: rest) w0
     = (Raise bounds_error, w1)
  /\ objective (model w1) = objective (model w)
  /\ (no_markers (reactions (model w)) ->
      Forall2 framed (reactions (model w)) (reactions (model w1))).
Proof.
  intros H0 Hb.
  pose proof (set_bounds_raises factor w e w1 Hb) as ->.
  split; [reflexivity|]. split; [|split].
  - rewrite (sweep_from optimize fs1 (factor :: rest) results w0 w H0).
    cbn [sweep]. unfold bind at 1. unfold iteration, bind at 1.
    now rewrite prepare_unfold, Hb.
  - destruct (set_bounds_prefix factor w)
      as (? & ? & ? & ? & ? & _ & _ & _ & Ho & _).
    now rewrite Hb in Ho.
  - intros Hm. pose proof (set_bounds_framed factor w Hm) as Hf.
    now rewrite Hb in Hf.
Qed.

Lemma refused_store_is_fatal_witness :
  fst (run_fba_with_enhancement Toy.toy_optimize
         ([2.0] ++ (-1.0) :: [3.0])%float Toy.toy_world)
  = Raise bounds_error
  /\ upper_bound_of "CS"
       (snd (run_fba_with_enhancement Toy.toy_optimize
               ([2.0] ++ (-1.0) :: [3.0])%float Toy.toy_world))
     = Some 2000%float.
Proof.
  edestruct (refused_store_is_fatal Toy.toy_optimize
               [2.0%float] (-1.0)%float [3.0%float] Toy.toy_world)
    as (_ & H & _);
    [vm_compute; reflexivity | apply run_raised; vm_compute; reflexivity |].
  rewrite H. vm_compute. split; reflexivity.
Defined.

(** ** Bounds with recorded originals *)

(** What a sweep over at least one factor does to a reaction, whatever the
    markers: identifier, lower bound and marker stay, and a reaction that
    the override table does not name ends at its recorded original bound
    when it has one and keeps its upper bound otherwise. *)
Definition kept (r r' : Reaction) : Prop :=
  id r' = id r
  /\ lower_bound r' = lower_bound r
  /\ original_upper_bound r' = original_upper_bound r
  /\ (Dict.contains (id r) base_constraints = false ->
      upper_bound r'
      = match original_upper_bound r with
        | Some original => original
        | None => upper_bound r
        end).

Lemma kept_trans r1 r2 r3 : kept r1 r2 -> kept r2 r3 -> kept r1 r3.
Proof.
  unfold kept. intros (Hi & Hl & Ho & Hu) (Hi' & Hl' & Ho' & Hu').
  repeat split; try congruence.
  intros Hc. rewrite Hu' by now rewrite Hi. rewrite Ho.
  destruct (original_upper_bound r1); auto.
Qed.

Lemma kept_framed r1 r2 r3 : kept r1 r2 -> framed r2 r3 -> kept r1 r3.
Proof.
  unfold kept, framed. intros (Hi & Hl & Ho & Hu) (Hi' & Hl' & Ho' & Hu').
  repeat split; try congruence.
  intros Hc. rewrite Hu' by now rewrite Hi. auto.
Qed.

Lemma Forall2_compose {A} (P Q R : A -> A -> Prop) l1 l2 l3 :
  (forall a b c, P a b -> Q b c -> R a c) ->
  Forall2 P l1 l2 -> Forall2 Q l2 l3 -> Forall2 R l1 l3.
Proof.
  intros HPQ H. revert l3. induction H; intros l3 H3; inversion H3; subst;
    constructor; eauto.
Qed.

Lemma reset_kept rs : Forall2 kept rs (map reset_bound rs).
Proof.
  induction rs as [|r rs IH]; simpl; constructor; auto.
  unfold kept. destruct r as [i l u [o|]]; simpl; auto.
Qed.

Lemma scaled_kept factor rs : Forall2 kept rs (scaled factor rs).
Proof.
  unfold scaled.
  eapply Forall2_compose; [exact kept_framed|apply reset_kept|].
  apply table_framed. rewrite constraints_keys. repeat constructor.
Qed.

Lemma sweep_kept f fs rs :
  Forall2 kept rs (fold_left (fun rs f => scaled f rs) (f :: fs) rs).
Proof.
  revert f rs. induction fs as [|f' fs IH]; intros f rs.
  - apply scaled_kept.
  - eapply Forall2_compose; [exact kept_trans|apply scaled_kept|].
    apply (IH f' (scaled f rs)).
Qed.

(** X3.  Whatever markers the reactions carry, a sweep over at least one
    factor that returns leaves the reactions of the model in their order
    with identifiers, lower bounds and markers unchanged; a reaction that
    the override table does not name ends at its recorded original upper
    bound when it has one, and with its upper bound unchanged when it has
    none. *)
Theorem sweep_keeps_all_but_upper_bounds
    (optimize : Model -> outcome Solution) (f : float) (fs : list float)
    (w w' : World) (final : Dict.dict Record_) :
  run_fba_with_enhancement optimize (f :: fs) w = (Ok final, w') ->
  Forall2 kept (reactions (model w)) (reactions (model w')).
Proof.
  intros H. rewrite run_is_sweep in H.
  rewrite (sweep_reactions optimize _ _ _ _ _ H). apply sweep_kept.
Qed.

Lemma sweep_keeps_all_but_upper_bounds_witness :
  Forall2 kept (reactions (model Faulty.marked_world))
    (reactions
       (model (snd (run_fba_with_enhancement Toy.toy_optimize
                      [2.0; 3.0]%float Faulty.marked_world)))).
Proof.
  eapply (sweep_keeps_all_but_upper_bounds Toy.toy_optimize).
  apply run_returned. vm_compute. reflexivity.
Defined.

Lemma sweep_marked_found fs rxn rs r o :
  get_by_id rxn rs = Some r ->
  original_upper_bound r = Some o ->
  exists r',
    get_by_id rxn (fold_left (fun rs f => scaled f rs) fs rs) = Some r'
    /\ original_upper_bound r' = Some o.
Proof.
  revert rs r. induction fs as [|f fs IH]; intros rs r Hr Ho; simpl; eauto.
  eapply IH.
  - rewrite scaled_get_any, Hr. reflexivity.
  - destruct (Dict.get rxn base_constraints); destruct r; exact Ho.
Qed.

(** X4.  A reaction that carries a recorded original upper bound is reset
    to it at the start of every iteration, so its override does not
    compound: after a sweep that returns, an override-table reaction with
    original bound [o] has the upper bound [o * min(4.0, f * base)] for the
    last factor [f] alone, whatever the factors before it and whatever its
    upper bound was. *)
Theorem marked_override_does_not_compound
    (optimize : Model -> outcome Solution) (fs : list float) (f : float)
    (w w' : World) (final : Dict.dict Record_)
    (rxn : string) (base o : float) (r : Reaction) :
  run_fba_with_enhancement optimize (fs ++ [f]) w = (Ok final, w') ->
  Dict.get rxn base_constraints = Some base ->
  get_by_id rxn (reactions (model w)) = Some r ->
  original_upper_bound r = Some o ->
  upper_bound_of rxn w' = Some (o * py_min 4.0 (f * base))%float.
Proof.
  intros H Hb Hr Ho. rewrite run_is_sweep in H.
  unfold upper_bound_of. rewrite (sweep_reactions optimize _ _ _ _ _ H).
  rewrite fold_left_app. cbn [fold_left].
  destruct (sweep_marked_found fs rxn _ r o Hr Ho) as (r' & Hr' & Ho').
  rewrite scaled_get_any, Hr', Hb. cbn [option_map].
  unfold scale, reset_bound, reset_value. rewrite Ho'. reflexivity.
Qed.

Lemma marked_override_does_not_compound_witness :
  upper_bound_of "CS"
    (snd (run_fba_with_enhancement Toy.toy_optimize ([2.0] ++ [3.0])%float
            Faulty.marked_world))
  = Some 1500%float.
Proof.
  erewrite (marked_override_does_not_compound Toy.toy_optimize
              [2.0%float] 3.0%float Faulty.marked_world _ _ "CS" 1.0 500);
    [reflexivity | apply run_returned; vm_compute; reflexivity
    | reflexivity | reflexivity | reflexivity].
Defined.

(** ** The objective and the mapping after a sweep *)

Lemma prepare_objective factor w w1 :
  prepare factor w = (Ok tt, w1) ->
  objective (model w1) = [(biomass_id, 0.5%float); (atpm_id, 0.5%float)].
Proof.
  intros H. apply prepare_inv in H as (w0 & _ & ->). reflexivity.
Qed.

Section MappingFacts.
Variable optimize : Model -> outcome Solution.

Lemma iteration_objective factor results w results' w' :
  iteration optimize factor results w = (Ok results', w') ->
  objective (model w') = [(biomass_id, 0.5%float); (atpm_id, 0.5%float)].
Proof.
  intros H. apply iteration_ok_inv in H as (w1 & sol & Hp & _ & Hc).
  apply prepare_objective in Hp. unfold conclude in Hc.
  destruct (negb _); injection Hc as _ <-; exact Hp.
Qed.

Lemma sweep_objective fs results w results' w' :
  sweep optimize fs results w = (Ok results', w') ->
  objective (model w')
  = match fs with
    | [] => objective (model w)
    | _ :: _ => [(biomass_id, 0.5%float); (atpm_id, 0.5%float)]
    end.
Proof.
  revert results w. induction fs as [|f fs IH]; intros results w H.
  - now injection H as _ <-.
  - cbn [sweep] in H. apply bind_ok in H as (r1 & w1 & Hi & H).
    rewrite (IH _ _ H). destruct fs; [|reflexivity].
    eapply iteration_objective; eauto.
Qed.

Lemma sweep_get_untouched fs k results w results' w' :
  sweep optimize fs results w = (Ok results', w') ->
  (forall f, In f fs -> label f <> k) ->
  Dict.get k results' = Dict.get k results.
Proof.
  revert results w. induction fs as [|f fs IH]; intros results w H Hk.
  - now injection H as <- _.
  - cbn [sweep] in H. apply bind_ok in H as (r1 & w1 & Hi & H).
    rewrite (IH _ _ H) by (intros f' Hf'; apply Hk; now right).
    apply iteration_ok_inv in Hi as (w2 & sol & _ & _ & Hc).
    apply conclude_keys in Hc as [->| ->]; auto.
    apply get_setitem_other. apply Hk. now left.
Qed.

End MappingFacts.

(** X5.  A sweep that returns leaves the model with the blended objective
    of lines 43-46, 0.5 on the biomass reaction and 0.5 on [ATPM], as soon
    as it has processed one factor: whatever objective the model had is
    gone.  A sweep over no factor leaves the objective alone and returns
    the empty mapping without touching the world. *)
Theorem sweep_replaces_objective
    (optimize : Model -> outcome Solution) (fs : list float)
    (w w' : World) (final : Dict.dict Record_) :
  run_fba_with_enhancement optimize fs w = (Ok final, w') ->
  (fs <> [] ->
   objective (model w') = [(biomass_id, 0.5%float); (atpm_id, 0.5%float)])
  /\ (fs = [] -> final = [] /\ w' = w).
Proof.
  intros H. rewrite run_is_sweep in H. split.
  - intros Hne. rewrite (sweep_objective optimize _ _ _ _ _ H).
    destruct fs; [contradiction|reflexivity].
  - intros ->. injection H as <- <-. auto.
Qed.

Lemma sweep_replaces_objective_witness :
  objective
    (model (snd (run_fba_with_enhancement Toy.picky_optimize
                   [1.0; 2.0]%float Toy.toy_world)))
  = [("BIOMASS_Ecoli_core_w_GAM", 0.5%float); ("ATPM", 0.5%float)].
Proof.
  edestruct (sweep_replaces_objective Toy.picky_optimize [1.0; 2.0]%float
               Toy.toy_world) as [H _];
    [apply run_returned; vm_compute; reflexivity|].
  apply H. discriminate.
Defined.

(** X6.  Whatever the statuses of the solves, a sweep that returns gives a
    mapping with pairwise distinct keys, every record of which holds the
    four fields ATP_production, O2_consumption, NADH_turnover and
    growth_rate in this order, and with at most as many entries as there
    are factors. *)
Theorem mapping_is_bounded_by_factors
    (optimize : Model -> outcome Solution) (fs : list float)
    (w w' : World) (final : Dict.dict Record_) :
  run_fba_with_enhancement optimize fs w = (Ok final, w') ->
  NoDup (Dict.keys final)
  /\ (forall k rec, Dict.get k final = Some rec -> four_fields rec)
  /\ (List.length final <= List.length fs)%nat.
Proof.
  intros H. rewrite run_is_sweep in H.
  destruct (sweep_well_formed optimize _ _ _ _ _ H (NoDup_nil _))
    as [Hnd Hfour]; [intros k r []|].
  split; [exact Hnd|]. split.
  - intros k rec Hk. apply (Hfour k). now apply get_some_in.
  - rewrite <- (length_map fst final), <- (length_map label fs).
    apply NoDup_incl_length; [exact Hnd|].
    intros k Hk. destruct (sweep_keys optimize _ _ _ _ _ H) as [_ Hnew].
    destruct (Hnew k Hk) as [[]|(f & Hf & ->)]. now apply in_map.
Qed.

Lemma mapping_is_bounded_by_factors_witness :
  (List.length
     (match fst (run_fba_with_enhancement Toy.picky_optimize
                   [1.0; 2.0; 3.0]%float Toy.toy_world) with
      | Ok final => final
      | Raise _ => []
      end)
   <= 3)%nat.
Proof.
  edestruct (mapping_is_bounded_by_factors Toy.picky_optimize
               [1.0; 2.0; 3.0]%float Toy.toy_world) as (_ & _ & H);
    [apply run_returned; vm_compute; reflexivity|].
  exact H.
Defined.

(** X7.  The record stored for an optimal solve stays in the mapping as
    long as no later factor has the same label: the sweep then returns it
    under that label.  (A later factor with the same label that solves
    optimally overwrites it, as line 53 stores by label.) *)
Theorem record_survives_other_labels
    (optimize : Model -> outcome Solution)
    (fs1 : list float) (factor : float) (rest : list float)
    (w0 w w1 w' : World) (results final : Dict.dict Record_)
    (solution : Solution) :
  sweep optimize fs1 [] w0 = (Ok results, w) ->
  prepare factor w = (Ok tt, w1) ->
  optimize (model w1) = Ok solution ->
  status solution = "optimal" ->
  (forall f, In f rest -> label f <> label factor) ->
  run_fba_with_enhancement optimize (fs1 ++ factor :: rest) w0
  = (Ok final, w') ->
  Dict.get (label factor) final = Some (sweep_result solution).
Proof.
  intros H0 Hp Hs Ho Hrest Hrun.
  rewrite (sweep_from optimize fs1 (factor :: rest) results w0 w H0) in Hrun.
  cbn [sweep] in Hrun. apply bind_ok in Hrun as (r1 & w2 & Hi & Hrun).
  rewrite (iteration_solved optimize factor results w w1 solution Hp Hs) in Hi.
  rewrite conclude_optimal in Hi by assumption. injection Hi as <- <-.
  rewrite (sweep_get_untouched optimize _ _ _ _ _ _ Hrun Hrest).
  apply get_setitem_same.
Qed.

Lemma record_survives_other_labels_witness :
  Dict.get "Factor_1.0"
    (match fst (run_fba_with_enhancement Toy.toy_optimize
                  ([] ++ 1.0 :: [2.0])%float Toy.toy_world) with
     | Ok final => final
     | Raise _ => []
     end)
  = Some [("ATP_production", 10); ("O2_consumption", 5);
          ("NADH_turnover", 20); ("growth_rate", 1)]%float.
Proof.
  rewrite (run_returned
             (run_fba_with_enhancement Toy.toy_optimize
                ([] ++ 1.0 :: [2.0])%float)
             Toy.toy_world _ ltac:(vm_compute; reflexivity)).
  cbv beta iota delta [fst].
  etransitivity.
  - eapply (record_survives_other_labels Toy.toy_optimize [] 1.0%float
              [2.0%float] Toy.toy_world);
      [vm_compute; reflexivity | vm_compute; reflexivity
      | vm_compute; reflexivity | reflexivity | | apply run_returned; vm_compute; reflexivity].
    intros f [<-|[]]. vm_compute. discriminate.
  - vm_compute. reflexivity.
Defined.

(** ** The order of floats *)

Lemma lex_lt e1 m1 e2 m2 :
  match (e1 ?= e2)%Z with
  | Lt => Lt
  | Gt => Gt
  | Eq => Pos.compare_cont Eq m1 m2
  end = Lt
  <-> (e1 < e2 \/ e1 = e2 /\ Zpos m1 < Zpos m2)%Z.
Proof.
  change (Pos.compare_cont Eq m1 m2) with (m1 ?= m2)%positive.
  destruct (Z.compare_spec e1 e2); [|intuition (try lia; try discriminate)..].
  rewrite Pos.compare_lt_iff. intuition lia.
Qed.

Lemma lex_gt e1 m1 e2 m2 :
  match (e1 ?= e2)%Z with
  | Lt => Gt
  | Gt => Lt
  | Eq => CompOpp (Pos.compare_cont Eq m1 m2)
  end = Lt
  <-> (e2 < e1 \/ e1 = e2 /\ Zpos m2 < Zpos m1)%Z.
Proof.
  change (Pos.compare_cont Eq m1 m2) with (m1 ?= m2)%positive.
  destruct (Z.compare_spec e1 e2); [|intuition (try lia; try discriminate)..].
  destruct (Pos.compare_spec m1 m2); simpl;
    intuition (try lia; try discriminate).
Qed.

Lemma SFltb_finite s1 m1 e1 s2 m2 e2 :
  SFltb (S754_finite s1 m1 e1) (S754_finite s2 m2 e2) = true
  <-> match s1, s2 with
      | true, false => True
      | false, true => False
      | false, false => (e1 < e2 \/ e1 = e2 /\ Zpos m1 < Zpos m2)%Z
      | true, true => (e2 < e1 \/ e1 = e2 /\ Zpos m2 < Zpos m1)%Z
      end.
Proof.
  unfold SFltb, SFcompare. destruct s1, s2.
  - rewrite <- lex_gt.
    destruct (match (e1 ?= e2)%Z with Lt => Gt | Gt => Lt | Eq => _ end);
      intuition discriminate.
  - tauto.
  - intuition discriminate.
  - rewrite <- lex_lt.
    destruct (match (e1 ?= e2)%Z with Lt => Lt | Gt => Gt | Eq => _ end);
      intuition discriminate.
Qed.

Lemma SFltb_trans x y z :
  SFltb x y = true -> SFltb y z = true -> SFltb x z = true.
Proof.
  destruct x as [sx|sx| |sx mx ex], y as [sy|sy| |sy my ey],
    z as [sz|sz| |sz mz ez];
    try (rewrite !SFltb_finite; destruct sx, sy, sz; (tauto || lia));
    unfold SFltb, SFcompare;
    repeat match goal with s : bool |- _ => destruct s end;
    intros; (reflexivity || discriminate).
Qed.

Lemma SFltb_asym x y : SFltb x y = true -> SFltb y x = false.
Proof.
  intros H. destruct (SFltb y x) eqn:E; auto.
  pose proof (SFltb_trans x y x H E) as C.
  destruct x as [sx|sx| |sx mx ex];
    try (unfold SFltb, SFcompare in C; destruct sx; discriminate).
  - unfold SFltb, SFcompare in C. discriminate.
  - rewrite SFltb_finite in C. destruct sx; lia.
Qed.

(** [<] on floats is transitive and asymmetric, NaN included. *)
Lemma ltb_trans (x y z : float) :
  (x <? y)%float = true -> (y <? z)%float = true -> (x <? z)%float = true.
Proof. rewrite !ltb_spec. apply SFltb_trans. Qed.

Lemma ltb_asym (x y : float) :
  (x <? y)%float = true -> (y <? x)%float = false.
Proof. rewrite !ltb_spec. apply SFltb_asym. Qed.

Lemma ltb_irrefl (x : float) : (x <? x)%float = false.
Proof.
  destruct (x <? x)%float eqn:E; auto. now rewrite (ltb_asym x x E) in E.
Qed.

(** [y] is not below [x] and [x] is at most [z]: [y] is not below [z]. *)
Lemma not_ltb_chain (x y z : float) :
  (x <? y)%float = false ->
  (x = z \/ (x <? z)%float = true) ->
  (z <? y)%float = false.
Proof.
  intros Hxy [<-|Hxz]; auto.
  destruct (z <? y)%float eqn:E; auto.
  now rewrite (ltb_trans x z y Hxz E) in Hxy.
Qed.

(** ** The flux changes and their ranking *)

(** The order of line 104: [a] may stand before [b] when the absolute
    change of [a] is not below that of [b]. *)
Definition not_below (a b : string * float) : Prop :=
  (abs (snd a) <? abs (snd b))%float = false.

Lemma of_items_from_nodup {V} (l d : list (string * V)) :
  NoDup (Dict.keys d) ->
  NoDup (Dict.keys
           (fold_left (fun d kv => Dict.setitem (fst kv) (snd kv) d) l d)).
Proof.
  revert d. induction l as [|[k v] l IH]; intros d H; simpl; auto.
  apply IH. now apply setitem_nodup.
Qed.

Lemma of_items_nodup {V} (l : list (string * V)) :
  NoDup (Dict.keys (Dict.of_items l)).
Proof. apply of_items_from_nodup. constructor. Qed.

(** A display whose items agree on every key they share holds exactly its
    items. *)
Lemma of_items_from_get {V} k (v : V) (l d : list (string * V)) :
  (forall v1 v2,
     (In (k, v1) l \/ Dict.get k d = Some v1) ->
     (In (k, v2) l \/ Dict.get k d = Some v2) -> v1 = v2) ->
  Dict.get k (fold_left (fun d kv => Dict.setitem (fst kv) (snd kv) d) l d)
  = Some v
  <-> In (k, v) l \/ Dict.get k d = Some v.
Proof.
  revert d. induction l as [|[k0 v0] l IH]; intros d Hfun; simpl.
  - tauto.
  - destruct (string_dec k0 k) as [->|Hne].
    + rewrite IH.
      * rewrite get_setitem_same. split.
        -- intros [H|[= <-]]; auto.
        -- intros [[[= <-]|H]|H]; auto.
           right. f_equal. apply Hfun; simpl; auto.
      * intros v1 v2 H1 H2. rewrite get_setitem_same in H1, H2.
        apply Hfun; simpl.
        -- destruct H1 as [H1|[= <-]]; auto.
        -- destruct H2 as [H2|[= <-]]; auto.
    + rewrite IH.
      * rewrite get_setitem_other by assumption. split.
        -- intros [H|H]; auto.
        -- intros [[[= ? _]|H]|H]; auto. contradiction.
      * intros v1 v2 H1 H2. rewrite get_setitem_other in H1, H2 by assumption.
        apply Hfun; simpl; tauto.
Qed.

(** X8.  The flux changes of lines 102-103 hold an entry under [k] exactly
    when [k] is the identifier of a reaction of the model and the two
    records, read at [k] with default 0.0, differ by more than 0.1 in
    absolute value; the entry is that difference.  A difference of at most
    0.1, or one that is not a number, gives no entry. *)
Theorem flux_changes_entries
    (rs : list Reaction) (high native : Record_) (k : string) (v : float) :
  Dict.get k (flux_changes rs high native) = Some v
  <-> (exists r, In r rs /\ id r = k)
      /\ v = (Dict.get_default k 0.0 high
              - Dict.get_default k 0.0 native)%float
      /\ (0.1 <? abs v)%float = true.
Proof.
  unfold flux_changes, Dict.of_items.
  set (l := map (fun rxn => (id rxn, flux_delta high native rxn))
              (filter (fun rxn =>
                         (0.1 <? abs (flux_delta high native rxn))%float)
                 rs)).
  assert (Hin : forall v',
             In (k, v') l
             <-> (exists r, In r rs /\ id r = k)
                 /\ v' = (Dict.get_default k 0.0 high
                          - Dict.get_default k 0.0 native)%float
                 /\ (0.1 <? abs v')%float = true).
  { intros v'. unfold l. rewrite in_map_iff. split.
    - intros (r & [= <- <-] & Hr). apply filter_In in Hr as [Hr Hp].
      split; [eauto|]. split; [reflexivity|exact Hp].
    - intros ((r & Hr & <-) & -> & Hp). exists r. split; [reflexivity|].
      apply filter_In. split; [exact Hr|exact Hp]. }
  rewrite of_items_from_get.
  - rewrite Hin. simpl. intuition discriminate.
  - intros v1 v2 [H1|H1] [H2|H2]; try discriminate.
    apply Hin in H1 as (_ & -> & _). apply Hin in H2 as (_ & -> & _).
    reflexivity.
Qed.

Lemma insert_desc_perm x l : Permutation (x :: l) (insert_desc x l).
Proof.
  induction l as [|y l IH]; simpl; auto.
  destruct (abs (snd y) <? abs (snd x))%float; auto.
  rewrite perm_swap. now constructor.
Qed.

Lemma insert_desc_sorted x l :
  StronglySorted not_below l -> StronglySorted not_below (insert_desc x l).
Proof.
  induction 1 as [|y l Hs IH Hy]; simpl.
  - repeat constructor.
  - destruct (abs (snd y) <? abs (snd x))%float eqn:E.
    + constructor; [constructor; assumption|].
      constructor; [now apply ltb_asym|].
      rewrite Forall_forall in *. intros z Hz. unfold not_below.
      eapply not_ltb_chain; [exact (Hy z Hz)|now right].
    + constructor; [exact IH|].
      rewrite Forall_forall in *. intros z Hz.
      apply (Permutation_in _ (Permutation_sym (insert_desc_perm x l))) in Hz.
      destruct Hz as [<-|Hz]; [exact E|now apply Hy].
Qed.

Lemma sorted_desc_from l acc :
  StronglySorted not_below acc ->
  Permutation (l ++ acc) (fold_left (fun acc x => insert_desc x acc) l acc)
  /\ StronglySorted not_below
       (fold_left (fun acc x => insert_desc x acc) l acc).
Proof.
  revert acc. induction l as [|x l IH]; intros acc Hs; simpl; auto.
  destruct (IH (insert_desc x acc) (insert_desc_sorted x acc Hs)) as [Hp Hs'].
  split; [|exact Hs'].
  rewrite <- Hp. rewrite <- insert_desc_perm. apply Permutation_middle.
Qed.

Lemma firstn_keys_nodup {V} n (l : list (string * V)) :
  NoDup (map fst l) -> NoDup (map fst (firstn n l)).
Proof.
  intros H. rewrite <- (firstn_skipn n l), map_app in H.
  now apply NoDup_app_remove_r in H.
Qed.

(** X9.  The top changes of line 104 are the first five entries, or all of
    them when there are fewer, of an arrangement of the flux changes in
    which no entry stands before one of greater absolute value: each top
    change is a flux change with its value, and no flux change left out
    has a greater absolute value than a top change. *)
Theorem top_changes_are_the_largest
    (rs : list Reaction) (high native : Record_) :
  let changes := flux_changes rs high native in
  let top := top_of changes in
  exists left_out,
    Permutation (top ++ left_out) changes
    /\ StronglySorted not_below (top ++ left_out)
    /\ List.length top = Nat.min 5 (List.length changes).
Proof.
  intros changes top.
  destruct (sorted_desc_from changes [] (SSorted_nil _)) as [Hp Hs].
  rewrite app_nil_r in Hp. fold (sorted_desc changes) in Hp, Hs.
  assert (Et : top = firstn 5 (sorted_desc changes)).
  { unfold top, top_of, Dict.items. apply of_items_distinct.
    apply firstn_keys_nodup.
    apply (Permutation_NoDup (Permutation_map fst Hp)).
    apply (of_items_nodup
             (map (fun rxn => (id rxn, flux_delta high native rxn))
                (filter
                   (fun rxn =>
                      (0.1 <? abs (flux_delta high native rxn))%float)
                   rs))). }
  exists (skipn 5 (sorted_desc changes)).
  rewrite Et, firstn_skipn. split; [now symmetry|]. split; [exact Hs|].
  rewrite length_firstn. now rewrite (Permutation_length Hp).
Qed.

(** ** The key of the highest factor *)

Lemma max_from_spec ks :
  forall best best_val b,
    max_from ks best best_val = Ok b ->
    exists v,
      ((b = best /\ v = best_val) \/ (In b ks /\ factor_of_key b = Ok v))
      /\ (best_val = v \/ (best_val <? v)%float = true)
      /\ forall k, In k ks ->
           exists vk, factor_of_key k = Ok vk /\ (v <? vk)%float = false.
Proof.
  induction ks as [|k ks IH]; intros best best_val b H; cbn [max_from] in H.
  - injection H as <-. exists best_val. split; [auto|]. split; [auto|].
    intros k [].
  - destruct (factor_of_key k) as [vk|e] eqn:Ek; [|discriminate].
    cbn [obind] in H. destruct (best_val <? vk)%float eqn:E.
    + destruct (IH _ _ _ H) as (v & Hb & Hv & Hall).
      exists v. split; [|split].
      * destruct Hb as [[-> ->]|[Hin Hp]]; [right|right]; simpl; auto.
      * right. destruct Hv as [<-|Hv]; [exact E|].
        exact (ltb_trans _ _ _ E Hv).
      * intros k' [<-|Hk']; [|now apply Hall].
        exists vk. split; [exact Ek|].
        eapply not_ltb_chain; [apply ltb_irrefl|exact Hv].
    + destruct (IH _ _ _ H) as (v & Hb & Hv & Hall).
      exists v. split; [|split].
      * destruct Hb as [[-> ->]|[Hin Hp]]; [left|right]; simpl; auto.
      * exact Hv.
      * intros k' [<-|Hk']; [|now apply Hall].
        exists vk. split; [exact Ek|].
        eapply not_ltb_chain; [exact E|exact Hv].
Qed.

(** X10.  When line 100 returns a key, it is a key of the mapping, every
    key of the mapping parses as a float once ["Factor_"] is removed, and
    no key parses to a greater float than the returned one. *)
Theorem max_factor_key_is_highest
    (results : Dict.dict Record_) (best : string) :
  max_factor_key results = Ok best ->
  In best (Dict.keys results)
  /\ exists v,
       factor_of_key best = Ok v
       /\ forall k, In k (Dict.keys results) ->
            exists vk, factor_of_key k = Ok vk /\ (v <? vk)%float = false.
Proof.
  unfold max_factor_key. destruct (Dict.keys results) as [|k ks]; [discriminate|].
  destruct (factor_of_key k) as [vk|e] eqn:Ek; [|discriminate].
  cbn [obind]. intros H.
  destruct (max_from_spec ks k vk best H) as (v & Hb & Hv & Hall).
  assert (Hp : factor_of_key best = Ok v).
  { destruct Hb as [[-> ->]|[_ Hp]]; assumption. }
  split.
  - destruct Hb as [[-> _]|[Hin _]]; simpl; auto.
  - exists v. split; [exact Hp|].
    intros k' [<-|Hk']; [|now apply Hall].
    exists vk. split; [exact Ek|].
    eapply not_ltb_chain; [apply ltb_irrefl|exact Hv].
Qed.

Lemma max_factor_key_is_highest_witness :
  In "Factor_10.0"
    (Dict.keys
       [("Factor_2.0", native_estimate); ("Factor_10.0", native_estimate);
        ("Factor_9.5", native_estimate)]).
Proof.
  refine (proj1 (max_factor_key_is_highest
                   [("Factor_2.0", native_estimate);
                    ("Factor_10.0", native_estimate);
                    ("Factor_9.5", native_estimate)]
                   "Factor_10.0" _)).
  vm_compute. reflexivity.
Defined.

(** ** Labels parse back *)

Definition is_digit (c : ascii) : bool :=
  match digit_of c with
  | Some _ => true
  | None => false
  end.

Fixpoint all_digits (s : string) : Prop :=
  match s with
  | EmptyString => True
  | String c rest => is_digit c = true /\ all_digits rest
  end.

(** No character of the string is the [F] that starts ["Factor_"]. *)
Fixpoint no_F (s : string) : Prop :=
  match s with
  | EmptyString => True
  | String c rest => c <> "F"%char /\ no_F rest
  end.

Lemma digit_cases c :
  is_digit c = true ->
  In c ["0"; "1"; "2"; "3"; "4"; "5"; "6"; "7"; "8"; "9"]%char.
Proof.
  destruct c as [[|] [|] [|] [|] [|] [|] [|] [|]]; intros H;
    vm_compute in H; try discriminate H; cbn [In]; tauto.
Qed.

Lemma digit_facts c :
  is_digit c = true ->
  c <> "F"%char
  /\ Ascii.eqb c "." = false
  /\ Ascii.eqb c "i" = false
  /\ Ascii.eqb c "n" = false
  /\ (forall body,
        py_float (String c body) = parse_unsigned false (String c body)).
Proof.
  intros H. apply digit_cases in H. cbn [In] in H.
  decompose [or] H; subst; try contradiction;
    (split; [discriminate|]); repeat split; reflexivity.
Qed.

Lemma no_F_app a b : no_F a -> no_F b -> no_F (a ++ b).
Proof. induction a as [|c a IH]; simpl; tauto. Qed.

Lemma digits_no_F s : all_digits s -> no_F s.
Proof.
  induction s as [|c s IH]; simpl; auto.
  intros [Hc Hs]. split; [apply (digit_facts c Hc)|auto].
Qed.

Lemma uint_digits u : all_digits (NilEmpty.string_of_uint u).
Proof. induction u; simpl; auto. Qed.

Lemma dec_str_digits n :
  exists c ds, dec_str n = String c ds /\ is_digit c = true /\ all_digits ds.
Proof.
  unfold dec_str, NilZero.string_of_uint.
  destruct (N.to_uint (Z.to_N n)) as [|u|u|u|u|u|u|u|u|u|u];
    cbn [NilEmpty.string_of_uint];
    do 2 eexists; (split; [reflexivity|]); split;
    try reflexivity; try exact I; apply uint_digits.
Qed.

Lemma remove_all_no_F s : no_F s -> remove_all "Factor_" s 0 = s.
Proof.
  induction s as [|c s IH]; cbn [remove_all no_F]; auto.
  intros [Hc Hs]. cbn [String.prefix].
  destruct (ascii_dec "F" c) as [E|_]; [now symmetry in E|].
  now rewrite IH.
Qed.

Lemma remove_all_label s :
  remove_all "Factor_" ("Factor_" ++ s) 0 = remove_all "Factor_" s 0.
Proof. destruct s; reflexivity. Qed.

Lemma read_digits ds :
  all_digits ds ->
  forall acc frac, exists n k, read_decimal ds acc frac true = Some (n, k).
Proof.
  induction ds as [|c ds IH]; cbn [read_decimal all_digits].
  - intros _ acc frac. eauto.
  - intros [Hc Hds] acc frac.
    destruct (digit_facts c Hc) as (_ & -> & _).
    unfold is_digit in Hc. destruct (digit_of c); [|discriminate].
    apply IH. exact Hds.
Qed.

Lemma read_integer_part ds rest :
  all_digits ds ->
  forall acc seen,
  exists acc',
    read_decimal (ds ++ String "." rest) acc None seen
    = read_decimal rest acc' (Some O)
        (match ds with EmptyString => seen | _ => true end).
Proof.
  induction ds as [|c ds IH]; intros Hds acc seen.
  - exists acc. reflexivity.
  - destruct Hds as [Hc Hds]. cbn [append read_decimal].
    destruct (digit_facts c Hc) as (_ & -> & _).
    unfold is_digit in Hc. destruct (digit_of c) as [d|]; [|discriminate].
    destruct (IH Hds (acc * 10 + d)%Z true) as (acc' & E).
    exists acc'. rewrite E. now destruct ds.
Qed.

Lemma parse_fixed_notation s q r :
  exists v, parse_unsigned s (dec_str q ++ "." ++ dec_str r) = Some v.
Proof.
  destruct (dec_str_digits q) as (c & ds & Eq & Hc & Hds).
  destruct (dec_str_digits r) as (c' & ds' & Er & Hc' & Hds').
  unfold parse_unsigned. rewrite Eq.
  destruct (digit_facts c Hc) as (_ & _ & Hi & Hn & _).
  cbn [append String.eqb]. rewrite Hi, Hn.
  change (String c (ds ++ String "." (dec_str r)))%string
    with (String c ds ++ String "." (dec_str r))%string.
  destruct (read_integer_part (String c ds) (dec_str r) (conj Hc Hds) 0%Z false)
    as (acc' & E).
  rewrite E, Er.
  destruct (read_digits (String c' ds') (conj Hc' Hds') acc' (Some O))
    as (n & k & E').
  rewrite E'. eauto.
Qed.

(** Whatever the float, the label of line 53 gives a float back under the
    reading of line 100. *)
Lemma label_always_parses (x : float) :
  exists v, factor_of_key (label x) = Ok v.
Proof.
  assert (H : exists v, py_float (format_1f x) = Some v /\ no_F (format_1f x)).
  { unfold format_1f. destruct (Prim2SF x) as [s|s| |s m e].
    - destruct s; eexists; (split; [reflexivity|]); simpl;
        repeat split; discriminate.
    - destruct s; eexists; (split; [reflexivity|]); simpl;
        repeat split; discriminate.
    - eexists; (split; [reflexivity|]); simpl; repeat split; discriminate.
    - set (t := round_tenths m e).
      destruct (parse_fixed_notation s (t / 10) (t mod 10)) as (v & Hv).
      exists v.
      destruct (dec_str_digits (t / 10)) as (c & ds & Eq & Hc & Hds).
      destruct (dec_str_digits (t mod 10)) as (c' & ds' & Er & Hc' & Hds').
      assert (Hno : no_F (dec_str (t / 10) ++ "." ++ dec_str (t mod 10))).
      { apply no_F_app;
          [rewrite Eq; apply (digits_no_F (String c ds) (conj Hc Hds))|].
        split; [discriminate|].
        rewrite Er. apply (digits_no_F (String c' ds') (conj Hc' Hds')). }
      destruct s; cbn [sign_str append].
      + split; [exact Hv|]. split; [discriminate|exact Hno].
      + split; [|exact Hno]. rewrite <- Hv. rewrite Eq. cbn [append].
        apply (digit_facts c Hc). }
  destruct H as (v & Hv & Hno).
  exists v. unfold factor_of_key, label.
  now rewrite remove_all_label, remove_all_no_F, Hv.
Qed.

Lemma max_from_total ks :
  (forall k, In k ks -> exists v, factor_of_key k = Ok v) ->
  forall best best_val, exists b, max_from ks best best_val = Ok b.
Proof.
  induction ks as [|k ks IH]; intros Hall best best_val; cbn [max_from].
  - eauto.
  - destruct (Hall k (or_introl eq_refl)) as (v & ->). cbn [obind].
    destruct (best_val <? v)%float; apply IH; intros k' Hk'; apply Hall;
      now right.
Qed.

(** X11.  Line 100 cannot fail on the mapping a sweep returns, unless the
    mapping is empty: every key is a label, every label parses back to a
    float once ["Factor_"] is removed, so [max] returns a key; on the empty
    mapping it raises [ValueError]. *)
Theorem highest_key_never_fails
    (optimize : Model -> outcome Solution) (fs : list float)
    (w w' : World) (final : Dict.dict Record_) :
  run_fba_with_enhancement optimize fs w = (Ok final, w') ->
  (forall k, In k (Dict.keys final) -> exists v, factor_of_key k = Ok v)
  /\ (final <> [] -> exists best, max_factor_key final = Ok best)
  /\ (final = [] ->
      max_factor_key final
      = Raise (ValueError "max() arg is an empty sequence")).
Proof.
  intros H. rewrite run_is_sweep in H.
  assert (Hall : forall k, In k (Dict.keys final) ->
                   exists v, factor_of_key k = Ok v).
  { intros k Hk. destruct (sweep_keys optimize _ _ _ _ _ H) as [_ Hnew].
    destruct (Hnew k Hk) as [[]|(f & _ & ->)]. apply label_always_parses. }
  split; [exact Hall|]. split.
  - intros Hne. unfold max_factor_key.
    destruct final as [|[k r] rest]; [contradiction|]. cbn [Dict.keys map fst].
    destruct (Hall k (or_introl eq_refl)) as (v & ->). cbn [obind].
    apply max_from_total. intros k' Hk'. apply Hall. now right.
  - intros ->. reflexivity.
Qed.

Lemma highest_key_never_fails_witness :
  max_factor_key
    (match fst (run_fba_with_enhancement Toy.picky_optimize
                  [1.0; 2.0; 3.0]%float Toy.toy_world) with
     | Ok final => final
     | Raise _ => []
     end)
  = Ok "Factor_3.0".
Proof.
  edestruct (highest_key_never_fails Toy.picky_optimize
               [1.0; 2.0; 3.0]%float Toy.toy_world) as (_ & H & _);
    [apply run_returned; vm_compute; reflexivity|].
  destruct H as (best & Hbest); [vm_compute; discriminate|].
  vm_compute. reflexivity.
Defined.

(** ** The script from its first line *)

(** The world after lines 10-15, on a model that has both exchange
    reactions, when the setters accept the three stores. *)
Definition initial_world (w : World) : World :=
  let w3 :=
    with_reactions (update_by_id "EX_o2_e" (set_upper_bound (-5.0)%float))
      (with_reactions (update_by_id "EX_o2_e" (set_lower_bound (-25.0)%float))
         (with_reactions
            (update_by_id "EX_glc__D_e" (set_lower_bound (-40.0)%float)) w))
  in
  print_line (AvailableIds (map id (reactions (model w3)))) w3.

Section ScriptBody.
Variable optimize : Model -> outcome Solution.

(** Lines 66-109 of the script. *)
Definition after_prologue
    : M (Dict.dict Record_ * Dict.dict Record_ * TopFluxes) :=
  results <- run_fba_with_enhancement optimize factor_range ;;
  native_run <- run_fba_with_enhancement optimize [1.0%float] ;;
  native_solution <- lift (getitem "Factor_1.0" native_run) ;;
  actual_results <-
    lift (fill_estimates estimated_results
            (Dict.of_items
               (("Native", native_solution) :: Dict.items results))) ;;
  print (ResultsTable actual_results) ;;
  m' <- get_model ;;
  top <- lift (top_fluxes (reactions m') results actual_results) ;;
  print (TopFluxChanges top) ;;
  ret (shared_records results actual_results, actual_results, top).

End ScriptBody.

Lemma get_update_any (f : Reaction -> Reaction) k n rs :
  (forall r, id (f r) = id r) ->
  get_by_id n (update_by_id k f rs)
  = if String.eqb k n then option_map f (get_by_id n rs)
    else get_by_id n rs.
Proof.
  intros Hf. induction rs as [|r rs IH]; simpl.
  - now destruct (String.eqb k n).
  - destruct (String.eqb_spec (id r) k) as [<-|Hk]; simpl.
    + rewrite Hf. destruct (String.eqb (id r) n); reflexivity.
    + rewrite IH. destruct (String.eqb_spec (id r) n) as [<-|Hn]; auto.
      destruct (String.eqb_spec k (id r)); [congruence|reflexivity].
Qed.

Lemma store_bound_accepted rxn setter (f : Reaction -> Reaction) w r :
  get_by_id rxn (reactions (model w)) = Some r ->
  setter r = Ok (f r) ->
  store_bound rxn setter w = (Ok tt, with_reactions (update_by_id rxn f) w).
Proof.
  intros H Hs. rewrite store_bound_cases, H, Hs.
  unfold with_reactions. now rewrite (update_found rxn f _ r H).
Qed.

Lemma script_unfold optimize w :
  script optimize w
  = match prologue w with
    | (Ok _, w0) => after_prologue optimize w0
    | (Raise e, w0) => (Raise e, w0)
    end.
Proof. reflexivity. Qed.

(** Lines 10-15, outcome by outcome: a missing exchange reaction raises
    [KeyError]; a lower bound above the upper bound of its reaction is
    refused by the setter; the third store is never refused, as -5.0 lies
    above the lower bound -25.0 that the second one has just stored. *)
Lemma prologue_cases w :
  prologue w
  = match get_by_id "EX_glc__D_e" (reactions (model w)) with
    | None => (Raise (KeyError "EX_glc__D_e"), w)
    | Some glucose =>
        if (upper_bound glucose <? -40.0)%float then (Raise bounds_error, w)
        else
          match get_by_id "EX_o2_e" (reactions (model w)) with
          | None =>
              (Raise (KeyError "EX_o2_e"),
               with_reactions
                 (update_by_id "EX_glc__D_e" (set_lower_bound (-40.0)%float))
                 w)
          | Some oxygen =>
              if (upper_bound oxygen <? -25.0)%float
              then
                (Raise bounds_error,
                 with_reactions
                   (update_by_id "EX_glc__D_e"
                      (set_lower_bound (-40.0)%float)) w)
              else (Ok tt, initial_world w)
          end
    end.
Proof.
  unfold prologue. unfold bind at 1.
  destruct (get_by_id "EX_glc__D_e" (reactions (model w))) as [g|] eqn:Eg.
  2:{ now rewrite store_bound_cases, Eg. }
  destruct (upper_bound g <? -40.0)%float eqn:Cg.
  { now rewrite store_bound_cases, Eg, store_lower_bound_cases, Cg. }
  rewrite (store_bound_accepted _ _ (set_lower_bound (-40.0)%float) _ g Eg)
    by now rewrite store_lower_bound_cases, Cg.
  set (w1 := with_reactions
               (update_by_id "EX_glc__D_e" (set_lower_bound (-40.0)%float)) w).
  assert (E1 : get_by_id "EX_o2_e" (reactions (model w1))
               = get_by_id "EX_o2_e" (reactions (model w))).
  { unfold w1. rewrite reactions_with_reactions, get_update_any by reflexivity.
    reflexivity. }
  unfold bind at 1.
  destruct (get_by_id "EX_o2_e" (reactions (model w))) as [o|] eqn:Eo.
  2:{ now rewrite store_bound_cases, E1. }
  destruct (upper_bound o <? -25.0)%float eqn:Co.
  { now rewrite store_bound_cases, E1, store_lower_bound_cases, Co. }
  rewrite (store_bound_accepted _ _ (set_lower_bound (-25.0)%float) _ o E1)
    by now rewrite store_lower_bound_cases, Co.
  unfold bind at 1.
  erewrite (store_bound_accepted _ _ (set_upper_bound (-5.0)%float)).
  - reflexivity.
  - rewrite reactions_with_reactions, get_update_any by reflexivity.
    rewrite String.eqb_refl, E1. reflexivity.
  - now rewrite store_upper_bound_cases.
Qed.

Lemma prologue_ok w w0 :
  prologue w = (Ok tt, w0) ->
  w0 = initial_world w
  /\ exists g o,
       get_by_id "EX_glc__D_e" (reactions (model w)) = Some g
       /\ get_by_id "EX_o2_e" (reactions (model w)) = Some o.
Proof.
  rewrite prologue_cases.
  destruct (get_by_id "EX_glc__D_e" (reactions (model w))) as [g|];
    [|discriminate].
  destruct (upper_bound g <? -40.0)%float; [discriminate|].
  destruct (get_by_id "EX_o2_e" (reactions (model w))) as [o|];
    [|discriminate].
  destruct (upper_bound o <? -25.0)%float; [discriminate|].
  intros [= <-]. eauto.
Qed.

(** X12.  Lines 10-12 look the two exchange reactions up by identifier and
    store through the setters.  On a model without the glucose exchange the
    script raises [KeyError] at once, in an untouched world.  On a model
    with it but without the oxygen exchange it raises at line 10 or at line
    11: [ValueError] in an untouched world when the glucose upper bound
    lies below -40.0, and otherwise [KeyError] for the oxygen exchange
    after having set the glucose lower bound.  Nothing was printed and no
    solve took place. *)
Theorem script_needs_exchange_reactions
    (optimize : Model -> outcome Solution) (w : World) :
  get_by_id "EX_glc__D_e" (reactions (model w)) = None
  \/ get_by_id "EX_o2_e" (reactions (model w)) = None ->
  script optimize w
  = match get_by_id "EX_glc__D_e" (reactions (model w)) with
    | None => (Raise (KeyError "EX_glc__D_e"), w)
    | Some glucose =>
        if (upper_bound glucose <? -40.0)%float then (Raise bounds_error, w)
        else
          (Raise (KeyError "EX_o2_e"),
           with_reactions
             (update_by_id "EX_glc__D_e" (set_lower_bound (-40.0)%float)) w)
    end.
Proof.
  intros H. rewrite script_unfold, prologue_cases.
  destruct (get_by_id "EX_glc__D_e" (reactions (model w))) as [g|];
    [|reflexivity].
  destruct H as [H|H]; [discriminate|]. rewrite H.
  now destruct (upper_bound g <? -40.0)%float.
Qed.

Lemma script_needs_exchange_reactions_witness :
  script Toy.toy_optimize
    (mkWorld (mkModel [Toy.rxn "EX_glc__D_e" (-10) 1000] []) [])
  = (Raise (KeyError "EX_o2_e"),
     mkWorld (mkModel [Toy.rxn "EX_glc__D_e" (-40) 1000] []) [])
  /\ script Toy.toy_optimize
       (mkWorld (mkModel [Toy.rxn "EX_glc__D_e" (-100) (-50)] []) [])
     = (Raise bounds_error,
        mkWorld (mkModel [Toy.rxn "EX_glc__D_e" (-100) (-50)] []) []).
Proof.
  split.
  - rewrite (script_needs_exchange_reactions Toy.toy_optimize
               (mkWorld (mkModel [Toy.rxn "EX_glc__D_e" (-10) 1000] []) []));
      [reflexivity|right; reflexivity].
  - rewrite (script_needs_exchange_reactions Toy.toy_optimize
               (mkWorld (mkModel [Toy.rxn "EX_glc__D_e" (-100) (-50)] []) []));
      [reflexivity|right; reflexivity].
Defined.

Section ScriptRuns.
Variable optimize : Model -> outcome Solution.

Lemma native_run_solved w2 w1 solution :
  prepare 1.0%float w2 = (Ok tt, w1) ->
  optimize (model w1) = Ok solution ->
  run_fba_with_enhancement optimize [1.0%float] w2
  = if String.eqb (status solution) "optimal"
    then (Ok [("Factor_1.0", sweep_result solution)],
          print_line (FluxSummary 1.0 (firstn 5 (fluxes solution))) w1)
    else (Ok [], print_line (SolverWarning (status solution) 1.0) w1).
Proof.
  intros Hp Hs. unfold run_fba_with_enhancement. cbn [sweep].
  unfold bind at 1.
  rewrite (iteration_solved optimize 1.0%float [] w2 w1 solution Hp Hs).
  unfold conclude. destruct (String.eqb (status solution) "optimal");
    reflexivity.
Qed.

(** The filling of lines 79-81 on what the script builds at line 71. *)
Lemma script_fill swept w1 w2 native_solution :
  run_fba_with_enhancement optimize factor_range w1 = (Ok swept, w2) ->
  four_fields native_solution ->
  NoDup (Dict.keys (("Native", native_solution) :: swept))
  /\ fill_estimates estimated_results
       (Dict.of_items (("Native", native_solution) :: Dict.items swept))
     = Ok (map patch_item (("Native", native_solution) :: swept)).
Proof.
  intros Hrun Hns. rewrite run_is_sweep in Hrun.
  destruct (sweep_well_formed optimize _ _ _ _ _ Hrun (NoDup_nil _))
    as [Hnd Hfour]; [intros k r []|].
  assert (Hkeys : forall k, In k (Dict.keys swept) ->
            In k ["Factor_1.0"; "Factor_2.0"; "Factor_3.0"; "Factor_4.0"]).
  { intros k Hk. apply factor_range_labels.
    destruct (sweep_keys optimize _ _ _ _ _ Hrun) as [_ Hnew].
    destruct (Hnew k Hk) as [[]|?]; assumption. }
  assert (Hpre : NoDup (Dict.keys (("Native", native_solution) :: swept))).
  { cbn [Dict.keys map fst]. constructor; [|exact Hnd].
    intros Hin. apply Hkeys in Hin. cbn [In] in Hin.
    decompose [or] Hin; try discriminate; contradiction. }
  split; [exact Hpre|].
  unfold Dict.items. rewrite of_items_distinct by exact Hpre.
  apply fill_estimates_patches; [exact Hpre|].
  intros k r [[= <- <-]|Hin].
  - split; [exact Hns|reflexivity].
  - split; [eauto|]. apply estimate_known. right. apply Hkeys.
    apply (in_map fst) in Hin. exact Hin.
Qed.

End ScriptRuns.

(** X13.  Line 70 reads the entry Factor_1.0 of one more sweep over the
    factor 1.0 alone.  Once lines 10-15 and the first sweep have returned,
    a solve for that factor with a status other than ["optimal"] makes the
    sweep return the empty mapping, and the script raises [KeyError] for
    Factor_1.0: no table is printed and no file would be written. *)
Theorem script_needs_optimal_native_solve
    (optimize : Model -> outcome Solution) (w w0 w2 w1 : World)
    (swept : Dict.dict Record_) (solution : Solution) :
  prologue w = (Ok tt, w0) ->
  run_fba_with_enhancement optimize factor_range w0 = (Ok swept, w2) ->
  prepare 1.0%float w2 = (Ok tt, w1) ->
  optimize (model w1) = Ok solution ->
  status solution <> "optimal" ->
  script optimize w
  = (Raise (KeyError "Factor_1.0"),
     print_line (SolverWarning (status solution) 1.0) w1).
Proof.
  intros Hpro Hrun Hp Hs Hn.
  rewrite script_unfold, Hpro.
  unfold after_prologue. unfold bind at 1. rewrite Hrun.
  unfold bind at 1. rewrite (native_run_solved optimize w2 w1 solution Hp Hs).
  destruct (String.eqb_spec (status solution) "optimal"); [contradiction|].
  reflexivity.
Qed.

Lemma script_needs_optimal_native_solve_witness :
  fst (script Faulty.late_infeasible Toy.toy_world)
  = Raise (KeyError "Factor_1.0").
Proof.
  erewrite (script_needs_optimal_native_solve Faulty.late_infeasible
              Toy.toy_world);
    [reflexivity | apply run_returned; vm_compute; reflexivity
    | apply run_returned; vm_compute; reflexivity
    | vm_compute; reflexivity | vm_compute; reflexivity
    | vm_compute; discriminate].
Defined.

(** Lines 99-108 on a mapping whose keys all parse and all stand in
    [actual_results] beside Native: the note on insufficient data cannot
    come out. *)
Lemma top_fluxes_cases rs (swept actual : Dict.dict Record_) :
  (forall k, In k (Dict.keys swept) -> exists v, factor_of_key k = Ok v) ->
  (forall k, In k ("Native" :: Dict.keys swept) ->
     exists r, Dict.get k actual = Some r) ->
  (swept = [] /\ top_fluxes rs swept actual = Ok (Note "No valid solutions"))
  \/ (exists key high native,
        swept <> []
        /\ max_factor_key swept = Ok key
        /\ Dict.get key actual = Some high
        /\ Dict.get "Native" actual = Some native
        /\ top_fluxes rs swept actual
           = Ok (Changes (top_of (flux_changes rs high native)))).
Proof.
  intros Hparse Hin. destruct swept as [|[k0 r0] rest]; [left; auto|right].
  assert (Hmax : exists key, max_factor_key (((k0, r0) :: rest)) = Ok key).
  { unfold max_factor_key. cbn [Dict.keys map fst].
    destruct (Hparse k0 (or_introl eq_refl)) as (v & ->). cbn [obind].
    apply max_from_total. intros k' Hk'. apply Hparse. now right. }
  destruct Hmax as (key & Hkey).
  assert (Hk : In key (Dict.keys ((k0, r0) :: rest))).
  { unfold max_factor_key in Hkey. cbn [Dict.keys map fst] in *.
    destruct (factor_of_key k0) as [v0|]; [|discriminate]. cbn [obind] in Hkey.
    destruct (max_from_spec _ _ _ _ Hkey) as (v & [[-> _]|[Hin' _]] & _);
      [now left|now right]. }
  destruct (Hin key (or_intror Hk)) as (high & Hhigh).
  destruct (Hin "Native" (or_introl eq_refl)) as (native & Hnative).
  exists key, high, native. split; [discriminate|]. split; [exact Hkey|].
  split; [exact Hhigh|]. split; [exact Hnative|].
  unfold top_fluxes. cbn [List.length Nat.ltb Nat.leb]. rewrite Hkey.
  cbn [obind]. unfold Dict.contains, getitem. rewrite Hhigh, Hnative.
  reflexivity.
Qed.

Lemma getitem_single {V} k (v : V) : getitem k [(k, v)] = Ok v.
Proof. unfold getitem. cbn [Dict.get]. now rewrite String.eqb_refl. Qed.

Lemma reactions_print_line l w :
  reactions (model (print_line l w)) = reactions (model w).
Proof. reflexivity. Qed.

(** The script from line 66 on, once both sweeps and the filling are
    known. *)
Lemma after_prologue_runs optimize w0 w2 w3 swept native_solution actual top :
  run_fba_with_enhancement optimize factor_range w0 = (Ok swept, w2) ->
  run_fba_with_enhancement optimize [1.0%float] w2
  = (Ok [("Factor_1.0", native_solution)], w3) ->
  fill_estimates estimated_results
    (Dict.of_items (("Native", native_solution) :: Dict.items swept))
  = Ok actual ->
  top_fluxes (reactions (model w3)) swept actual = Ok top ->
  after_prologue optimize w0
  = (Ok (shared_records swept actual, actual, top),
     print_line (TopFluxChanges top) (print_line (ResultsTable actual) w3)).
Proof.
  intros Hrun Hnat Hfill Htop.
  unfold after_prologue. unfold bind at 1. rewrite Hrun.
  unfold bind at 1. rewrite Hnat.
  unfold bind at 1. rewrite getitem_single. unfold lift at 1.
  unfold bind at 1. rewrite Hfill. unfold lift at 1.
  unfold bind at 1. unfold print at 1. unfold modify at 1.
  unfold bind at 1. unfold get_model at 1.
  unfold bind at 1. rewrite reactions_print_line, Htop. unfold lift at 1.
  reflexivity.
Qed.

(** X14.  Once lines 10-15 and the first sweep have returned and the one
    more solve for the factor 1.0 is optimal, the script runs to its end:
    filling the estimates and ranking the flux changes raise nothing.  It
    ends with Native first in [actual_results], followed by the keys of the
    sweep.  Its top changes are the note [No valid solutions] when the sweep
    stored nothing, and otherwise the ranked changes between the record of
    the highest factor and the Native record; the note on insufficient
    data never comes out. *)
Theorem script_completes
    (optimize : Model -> outcome Solution) (w w0 w2 w1 : World)
    (swept : Dict.dict Record_) (solution : Solution) :
  prologue w = (Ok tt, w0) ->
  run_fba_with_enhancement optimize factor_range w0 = (Ok swept, w2) ->
  prepare 1.0%float w2 = (Ok tt, w1) ->
  optimize (model w1) = Ok solution ->
  status solution = "optimal" ->
  exists results actual_results top w',
    script optimize w = (Ok (results, actual_results, top), w')
    /\ Dict.keys actual_results = "Native" :: Dict.keys swept
    /\ Dict.keys results = Dict.keys swept
    /\ reactions (model w') = reactions (model w1)
    /\ top <> Note "Insufficient data for flux changes"
    /\ (swept = [] -> top = Note "No valid solutions")
    /\ (swept <> [] ->
        exists key high native,
          max_factor_key swept = Ok key
          /\ Dict.get key actual_results = Some high
          /\ Dict.get "Native" actual_results = Some native
          /\ top = Changes
                     (top_of (flux_changes (reactions (model w1)) high native))).
Proof.
  intros Hpro Hrun Hp Hs Ho.
  destruct (script_fill optimize swept _ _ (sweep_result solution) Hrun
              (sweep_result_four solution)) as [Hnd Hfill].
  remember (map patch_item (("Native", sweep_result solution) :: swept))
    as actual eqn:Eactual.
  assert (Hkeys : Dict.keys actual = "Native" :: Dict.keys swept).
  { rewrite Eactual. apply keys_patched. }
  clear Eactual.
  assert (Hparse : forall k, In k (Dict.keys swept) ->
                     exists v, factor_of_key k = Ok v).
  { intros k Hk. rewrite run_is_sweep in Hrun.
    destruct (sweep_keys optimize _ _ _ _ _ Hrun) as [_ Hnew].
    destruct (Hnew k Hk) as [[]|(f & _ & ->)]. apply label_always_parses. }
  assert (Hin : forall k, In k ("Native" :: Dict.keys swept) ->
                  exists r, Dict.get k actual = Some r).
  { intros k Hk. apply in_keys_get. now rewrite Hkeys. }
  pose proof (native_run_solved optimize w2 w1 solution Hp Hs) as Hnat.
  rewrite Ho, String.eqb_refl in Hnat.
  set (w3 := print_line (FluxSummary 1.0 (firstn 5 (fluxes solution))) w1)
    in Hnat.
  assert (Hscript : forall top,
             top_fluxes (reactions (model w1)) swept actual = Ok top ->
             script optimize w
             = (Ok (shared_records swept actual, actual, top),
                print_line (TopFluxChanges top)
                  (print_line (ResultsTable actual) w3))).
  { intros top Htop. rewrite script_unfold, Hpro.
    now apply (after_prologue_runs optimize _ w2 w3 swept
                 (sweep_result solution)). }
  destruct (top_fluxes_cases (reactions (model w1)) swept actual Hparse Hin)
    as [[-> Htop]|(key & high & native & Hne & Hkey & Hh & Hn & Htop)].
  - do 4 eexists. split; [exact (Hscript _ Htop)|].
    split; [exact Hkeys|]. split; [reflexivity|].
    split; [reflexivity|]. split; [discriminate|]. split; [reflexivity|].
    intros C. contradiction.
  - do 4 eexists. split; [exact (Hscript _ Htop)|].
    split; [exact Hkeys|]. split.
    { unfold shared_records, Dict.keys. rewrite map_map. reflexivity. }
    split; [reflexivity|]. split; [discriminate|].
    split; [intros C; contradiction|].
    intros _. exists key, high, native. auto.
Qed.

Lemma script_completes_witness :
  exists results actual_results w',
    script Toy.toy_optimize Toy.toy_world
    = (Ok (results, actual_results, Changes []), w')
    /\ Dict.keys actual_results
       = ["Native"; "Factor_1.0"; "Factor_2.0"; "Factor_3.0"; "Factor_4.0"].
Proof.
  edestruct (script_completes Toy.toy_optimize Toy.toy_world)
    as (results & actual & top & w' & Hscript & Hkeys & _);
    [apply run_returned; vm_compute; reflexivity
    | apply run_returned; vm_compute; reflexivity
    | vm_compute; reflexivity | vm_compute; reflexivity | reflexivity |].
  exists results, actual, w'. split.
  - rewrite Hscript. f_equal. f_equal.
    assert (E : fst (script Toy.toy_optimize Toy.toy_world)
                = Ok (results, actual, top)) by now rewrite Hscript.
    vm_compute in E. injection E as _ _ <-. reflexivity.
  - rewrite Hkeys. vm_compute. reflexivity.
Defined.

(** ** What the script leaves in the model *)

(** A script that returns went through lines 10-15 with both exchange
    reactions found and every store accepted. *)
Lemma script_ok_prologue optimize w x w' :
  script optimize w = (Ok x, w') ->
  after_prologue optimize (initial_world w) = (Ok x, w')
  /\ exists g o,
       get_by_id "EX_glc__D_e" (reactions (model w)) = Some g
       /\ get_by_id "EX_o2_e" (reactions (model w)) = Some o.
Proof.
  rewrite script_unfold.
  destruct (prologue w) as [[[]|e] w0] eqn:Hp; [|discriminate].
  apply prologue_ok in Hp as (-> & Hg). auto.
Qed.

Lemma after_prologue_inv optimize w0 results actual_results top w' :
  after_prologue optimize w0 = (Ok (results, actual_results, top), w') ->
  exists swept w2 native_run w3 native_solution,
    run_fba_with_enhancement optimize factor_range w0 = (Ok swept, w2)
    /\ run_fba_with_enhancement optimize [1.0%float] w2 = (Ok native_run, w3)
    /\ Dict.get "Factor_1.0" native_run = Some native_solution
    /\ fill_estimates estimated_results
         (Dict.of_items (("Native", native_solution) :: Dict.items swept))
       = Ok actual_results
    /\ reactions (model w') = reactions (model w3).
Proof.
  unfold after_prologue. intros H.
  apply bind_ok in H as (swept & w2 & Hrun & H).
  apply bind_ok in H as (native_run & w3 & Hnat & H).
  apply bind_ok in H as (native_solution & ? & Hget & H).
  apply bind_ok in H as (actual0 & ? & Hfill & H).
  apply bind_ok in H as (? & ? & Hp1 & H).
  apply bind_ok in H as (? & ? & Hm & H).
  apply bind_ok in H as (top0 & ? & Htop & H).
  apply bind_ok in H as (? & ? & Hp2 & H).
  injection H as <- -> -> <-.
  apply lift_ok in Hget as [Hget ->]. apply lift_ok in Hfill as [Hfill ->].
  apply lift_ok in Htop as [_ ->].
  injection Hp1 as _ <-. injection Hm as _ <-. injection Hp2 as _ <-.
  exists swept, w2, native_run, w3, native_solution.
  repeat split; auto.
  unfold getitem in Hget.
  destruct (Dict.get "Factor_1.0" native_run); congruence.
Qed.





Lemma get_by_id_kept n rs rs' r :
  Forall2 kept rs rs' ->
  get_by_id n rs = Some r ->
  exists r', get_by_id n rs' = Some r' /\ kept r r'.
Proof.
  induction 1 as [|a b rs rs' Hab _ IH]; simpl; [discriminate|].
  destruct Hab as (Hi & Hrest). rewrite Hi.
  destruct (String.eqb (id a) n).
  - intros [= <-]. exists b. split; [reflexivity|]. unfold kept. auto.
  - exact IH.
Qed.



(** X16.  The exchange bounds of lines 10-12 outlive the sweeps: when the
    script reaches its end, the glucose exchange still has the lower bound
    -40.0 and the oxygen exchange the lower bound -25.0; the oxygen
    exchange has the upper bound -5.0 unless it carries a recorded original
    upper bound, to which line 33 has then reset it. *)
Theorem exchange_bounds_survive
    (optimize : Model -> outcome Solution) (w w' : World)
    (results actual_results : Dict.dict Record_) (top : TopFluxes) :
  script optimize w = (Ok (results, actual_results, top), w') ->
  exists glucose oxygen,
    get_by_id "EX_glc__D_e" (reactions (model w')) = Some glucose
    /\ lower_bound glucose = (-40.0)%float
    /\ get_by_id "EX_o2_e" (reactions (model w')) = Some oxygen
    /\ lower_bound oxygen = (-25.0)%float
    /\ upper_bound oxygen
       = match original_upper_bound oxygen with
         | Some original => original
         | None => (-5.0)%float
         end.
Proof.
  intros H.
  destruct (script_ok_prologue optimize w _ w' H) as (Ha & g & o & Hg & Hx).
  apply after_prologue_inv in Ha
    as (swept & w2 & native_run & w3 & ns & Hrun & Hnat & _ & _ & Hrx).
  rewrite run_is_sweep in Hrun, Hnat.
  assert (Hk : Forall2 kept (reactions (model (initial_world w)))
                 (reactions (model w'))).
  { rewrite Hrx, (sweep_reactions optimize _ _ _ _ _ Hnat).
    rewrite (sweep_reactions optimize _ _ _ _ _ Hrun).
    rewrite <- fold_left_app. apply (sweep_kept 1.0%float). }
  assert (Hg0 : get_by_id "EX_glc__D_e" (reactions (model (initial_world w)))
                = Some (set_lower_bound (-40.0) g)).
  { unfold initial_world.
    rewrite reactions_print_line, !reactions_with_reactions.
    rewrite !get_update_any by reflexivity.
    cbn [String.eqb Ascii.eqb Bool.eqb]. rewrite Hg. reflexivity. }
  assert (Hx0 : get_by_id "EX_o2_e" (reactions (model (initial_world w)))
                = Some (set_upper_bound (-5.0)
                          (set_lower_bound (-25.0) o))).
  { unfold initial_world.
    rewrite reactions_print_line, !reactions_with_reactions.
    rewrite !get_update_any by reflexivity.
    cbn [String.eqb Ascii.eqb Bool.eqb]. rewrite Hx. reflexivity. }
  destruct (get_by_id_kept _ _ _ _ Hk Hg0) as (g' & Hg' & (_ & Hgl & _)).
  destruct (get_by_id_kept _ _ _ _ Hk Hx0)
    as (o' & Ho' & (Hoi & Hol & Hom & Hou)).
  exists g', o'. split; [exact Hg'|]. split; [exact Hgl|].
  split; [exact Ho'|]. split; [exact Hol|].
  rewrite Hou, Hom.
  - reflexivity.
  - cbn [id set_upper_bound set_lower_bound].
    rewrite (get_by_id_id _ _ _ Hx). reflexivity.
Qed.

Lemma exchange_bounds_survive_witness :
  option_map lower_bound
    (get_by_id "EX_glc__D_e"
       (reactions (model (snd (script Toy.toy_optimize Toy.toy_world)))))
  = Some (-40.0)%float.
Proof.
  edestruct (exchange_bounds_survive Toy.toy_optimize Toy.toy_world)
    as (g & o & Hg & Hgl & _);
    [apply run_returned; vm_compute; reflexivity|].
  rewrite Hg. cbn [option_map]. now rewrite Hgl.
Defined.
